(** * omega/utf8convert.cc: conversion of text in a named charset to UTF-8

    A shallow embedding of [convert_to_utf8_] and of the decoders it
    contains, followed by the properties of the conversion engine.

    Conventions of the embedding:
    - a [std::string] / [string_view] holding document text is a
      [list byte]; an [unsigned] is a [Z] with its 32-bit wrap-around
      written out ([u32]); a [size_t] index is a [nat];
    - the charset label is a [string]; [c_str] gives the C string the
      libc functions see (the characters before the first NUL), and a
      [const char*] walking over it is the suffix still to be read;
    - a call returns [None] when the C++ program has no defined result:
      an access outside [buf] or outside the text, or a conversion loop
      that never ends. *)

From Stdlib Require Import ZArith String Ascii Bool Lia List.
From coqutil Require Import Byte Z.bitblast.
Import ListNotations.

Local Open Scope list_scope.
Local Open Scope Z_scope.

(** ** C strings and the libc functions used on the charset label *)

Module CStr.

Definition code (c : ascii) : Z := Z.of_N (N_of_ascii c).

(** [std::string::c_str]: what a C function reads from the label. *)
Fixpoint c_str (s : string) : string :=
  match s with
  | EmptyString => EmptyString
  | String c r => if Ascii.eqb c Ascii.zero then EmptyString else String c (c_str r)
  end.

(** [*p] *)
Definition deref (p : string) : ascii :=
  match p with
  | EmptyString => Ascii.zero
  | String c _ => c
  end.

(** [p + n] *)
Fixpoint advance (n : nat) (p : string) : string :=
  match n, p with
  | O, _ => p
  | S _, EmptyString => EmptyString
  | S n', String _ r => advance n' r
  end.

(** [tolower] in the C locale. *)
Definition tolower (c : ascii) : ascii :=
  let n := N_of_ascii c in
  if ((65 <=? n) && (n <=? 90))%N then ascii_of_N (n + 32) else c.

(** The four comparisons: the characters, as [unsigned char] after
    [fold], are compared up to the first difference or the end of both
    strings, over at most [n] characters; the result is the difference
    there, or zero. *)
Section Compare.
Variable fold : ascii -> ascii.

Fixpoint compare_n (n : nat) (s1 s2 : string) : Z :=
  match n with
  | O => 0
  | S n' =>
      match s1, s2 with
      | EmptyString, EmptyString => 0
      | EmptyString, String c2 _ => 0 - code (fold c2)
      | String c1 _, EmptyString => code (fold c1)
      | String c1 r1, String c2 r2 =>
          let d := code (fold c1) - code (fold c2) in
          if d =? 0 then compare_n n' r1 r2 else d
      end
  end.

Definition compare_all (s1 s2 : string) : Z :=
  compare_n (S (Nat.max (String.length s1) (String.length s2))) s1 s2.
End Compare.

Definition strcmp : string -> string -> Z := compare_all (fun c => c).
Definition strncmp (s1 s2 : string) (n : nat) : Z := compare_n (fun c => c) n s1 s2.
Definition strcasecmp : string -> string -> Z := compare_all tolower.
Definition strncasecmp (s1 s2 : string) (n : nat) : Z := compare_n tolower n s1 s2.

(** An optional separator is stepped over: [++p] when [p] points at
    a hyphen, an underscore or a space. *)
Definition skip_separator (p : string) : string :=
  if Ascii.eqb (deref p) "-" || Ascii.eqb (deref p) "_" || Ascii.eqb (deref p) " "
  then advance 1 p else p.

End CStr.

(** ** Xapian::Unicode::to_utf8 *)

Module Unicode.

(** Modelled from the spec: [Xapian::Unicode::to_utf8] (xapian-core,
    include/xapian/unicode.h) is called by [convert_to_utf8_] but is not
    among the sources.  Section 4.5: one scalar value is encoded into its
    minimal UTF-8 byte sequence, 1 to 4 bytes by the standard range
    partition (below 0x80, below 0x800, below 0x10000, else 4 bytes).
    The C++ function writes the bytes at its second argument and returns
    their number; here the bytes are returned and the number is their
    [length]. *)
Definition to_utf8 (ch : Z) : list byte :=
  if ch <? 0x80 then
    [byte.of_Z ch]
  else if ch <? 0x800 then
    [byte.of_Z (Z.lor 0xc0 (Z.shiftr ch 6));
     byte.of_Z (Z.lor 0x80 (Z.land ch 0x3f))]
  else if ch <? 0x10000 then
    [byte.of_Z (Z.lor 0xe0 (Z.shiftr ch 12));
     byte.of_Z (Z.lor 0x80 (Z.land (Z.shiftr ch 6) 0x3f));
     byte.of_Z (Z.lor 0x80 (Z.land ch 0x3f))]
  else
    [byte.of_Z (Z.lor 0xf0 (Z.shiftr ch 18));
     byte.of_Z (Z.lor 0x80 (Z.land (Z.shiftr ch 12) 0x3f));
     byte.of_Z (Z.lor 0x80 (Z.land (Z.shiftr ch 6) 0x3f));
     byte.of_Z (Z.lor 0x80 (Z.land ch 0x3f))].

End Unicode.

(** ** Well-formed UTF-8 (Unicode Standard, table 3-7) *)

Module Utf8.

Definition between (lo hi b : Z) : bool := (lo <=? b) && (b <=? hi).

Definition continuation : Z -> bool := between 0x80 0xbf.

(** The byte values of a well-formed sequence: one of the nine rows of
    the table, then a well-formed sequence. *)
Fixpoint well_formed_values (l : list Z) : bool :=
  match l with
  | [] => true
  | b0 :: r0 =>
      if between 0x00 0x7f b0 then well_formed_values r0
      else
        match r0 with
        | [] => false
        | b1 :: r1 =>
            if between 0xc2 0xdf b0 then continuation b1 && well_formed_values r1
            else
              match r1 with
              | [] => false
              | b2 :: r2 =>
                  if between 0xe0 0xe0 b0 then
                    between 0xa0 0xbf b1 && continuation b2 && well_formed_values r2
                  else if between 0xe1 0xec b0 || between 0xee 0xef b0 then
                    continuation b1 && continuation b2 && well_formed_values r2
                  else if between 0xed 0xed b0 then
                    between 0x80 0x9f b1 && continuation b2 && well_formed_values r2
                  else
                    match r2 with
                    | [] => false
                    | b3 :: r3 =>
                        if between 0xf0 0xf0 b0 then
                          between 0x90 0xbf b1 && continuation b2
                          && continuation b3 && well_formed_values r3
                        else if between 0xf1 0xf3 b0 then
                          continuation b1 && continuation b2
                          && continuation b3 && well_formed_values r3
                        else if between 0xf4 0xf4 b0 then
                          between 0x80 0x8f b1 && continuation b2
                          && continuation b3 && well_formed_values r3
                        else false
                    end
              end
        end
  end.

Definition well_formed (l : list byte) : bool :=
  well_formed_values (map byte.unsigned l).

(** A surrogate code point, U+D800 to U+DFFF. *)
Definition is_surrogate (ch : Z) : bool := (0xd800 <=? ch) && (ch <=? 0xdfff).

(** A code point of the Unicode code space. *)
Definition in_code_space (ch : Z) : Prop := 0 <= ch <= 0x10ffff.

End Utf8.

(** ** The external conversion facility (iconv) *)

(** What one call [iconv(conv, &in, &in_len, &out, &out_len)] leaves
    behind: the state of the descriptor, the input not yet consumed, the
    bytes written to the output buffer, and whether it returned
    [size_t(-1)], in which case [errno] is either [E2BIG] or something
    else. *)
Record iconv_result (conv : Type) : Type := mk_iconv_result {
  ic_conv : conv;
  ic_in : list byte;
  ic_out : list byte;
  ic_failed : bool;
  ic_e2big : bool
}.
Arguments mk_iconv_result {conv}.
Arguments ic_conv {conv}.
Arguments ic_in {conv}.
Arguments ic_out {conv}.
Arguments ic_failed {conv}.
Arguments ic_e2big {conv}.

(** The build configuration ([HAVE_ICONV]) and the platform's iconv:
    [iconv_open tocode fromcode] is [None] for [(iconv_t)-1];
    [iconv conv input out_len]. *)
Record iconv_env : Type := mk_iconv_env {
  HAVE_ICONV : bool;
  iconv_t : Type;
  iconv_open : string -> string -> option iconv_t;
  iconv : iconv_t -> list byte -> nat -> iconv_result iconv_t
}.

(** ** convert_to_utf8_ *)

Module Convert.
Import CStr.

Definition u32 (x : Z) : Z := x mod 2 ^ 32.

(** [char buf[1024]] with the index [start] into it, and [string tmp]. *)
Record staging : Type := mk_staging {
  buf : list byte;
  start : nat;
  tmp : list byte
}.

Definition sizeof_buf : nat := 1024.

(** On entry [buf] is uninitialised and never read before it is
    written; it is taken as all zero. *)
Definition staging_init : staging :=
  {| buf := repeat Byte.x00 sizeof_buf; start := 0; tmp := [] |}.

(** Writing [bytes] at [buf + off]. *)
Definition store (b : list byte) (off : nat) (bytes : list byte) : list byte :=
  firstn off b ++ bytes ++ skipn (off + length bytes) b.

(** Lines 134-138 (and 188-192, 238-242):
    [start += to_utf8(ch, buf + start);
     if (start >= sizeof(buf) - 4) { tmp.append(buf, start); start = 0; }]
    A write that would leave [buf] has no defined result. *)
Definition encode (ch : Z) (s : staging) : option staging :=
  let bytes := Unicode.to_utf8 ch in
  if (start s + length bytes <=? sizeof_buf)%nat then
    let buf' := store (buf s) (start s) bytes in
    let start' := (start s + length bytes)%nat in
    if (sizeof_buf - 4 <=? start')%nat then
      Some {| buf := buf'; start := 0; tmp := tmp s ++ firstn start' buf' |}
    else
      Some {| buf := buf'; start := start'; tmp := tmp s |}
  else None.

(** [if (start) tmp.append(buf, start);] *)
Definition finish (s : staging) : list byte :=
  if (start s =? 0)%nat then tmp s else tmp s ++ firstn (start s) (buf s).

Definition cp1252_to_unicode : list Z :=
  [ 0x20ac; 0x0081; 0x201a; 0x0192; 0x201e; 0x2026; 0x2020; 0x2021;
    0x02c6; 0x2030; 0x0160; 0x2039; 0x0152; 0x008d; 0x017d; 0x008f;
    0x0090; 0x2018; 0x2019; 0x201c; 0x201d; 0x2022; 0x2013; 0x2014;
    0x02dc; 0x2122; 0x0161; 0x203a; 0x0153; 0x009d; 0x017e; 0x0178 ].

Definition iso8859_15_to_unicode : list Z :=
  [ 0x20ac; 0x00a5; 0x0160; 0x00a7; 0x0161; 0x00a9; 0x00aa; 0x00ab;
    0x00ac; 0x00ad; 0x00ae; 0x00af; 0x00b0; 0x00b1; 0x00b2; 0x00b3;
    0x017d; 0x00b5; 0x00b6; 0x00b7; 0x017e; 0x00b9; 0x00ba; 0x00bb;
    0x0152; 0x0153; 0x0178 ].

(** [unsigned code_point = ch; unsigned i = code_point - base;
     if (i < std::size(table)) code_point = table[i];] *)
Definition table_code_point (table : list Z) (base : Z) (ch : byte) : Z :=
  let code_point := byte.unsigned ch in
  let i := u32 (code_point - base) in
  if i <? Z.of_nat (length table) then nth (Z.to_nat i) table 0 else code_point.

(** A 16-bit unit from two consecutive bytes (lines 110-116, 121-127). *)
Definition unit16 (big_endian : bool) (c c2 : byte) : Z :=
  let ch := byte.unsigned c in
  let ch2 := byte.unsigned c2 in
  if big_endian then Z.lor (u32 (Z.shiftl ch 8)) ch2
  else Z.lor (u32 (Z.shiftl ch2 8)) ch.

(** The loops, over what is done with each code point: in
    [convert_to_utf8_] that is [encode]. *)
Section Loops.
Context {S : Type}.
Variable emit : Z -> S -> option S.

(** Lines 109-139: [while (i != text_end) { ... }] over the bytes from
    [i] to [text_end].  With a single byte left the two [*i++] step
    over [text_end]. *)
Fixpoint utf16_loop (big_endian : bool) (l : list byte) (s : S) : option S :=
  match l with
  | [] => Some s
  | [_] => None
  | c :: c2 :: rest =>
      let ch := unit16 big_endian c c2 in
      if Z.shiftr ch 10 =? Z.shiftr 0xd800 10 then
        match rest with
        | [] => Some s
        | [_] => None
        | d :: d2 :: rest' =>
            let hi := Z.land ch 0x3ff in
            let ch := unit16 big_endian d d2 in
            let ch :=
              if Z.shiftr ch 10 =? Z.shiftr 0xdc00 10
              then u32 (Z.lor (Z.land ch 0x3ff) (u32 (Z.shiftl hi 10)) + 0x10000)
              else ch in
            match emit ch s with
            | Some s' => utf16_loop big_endian rest' s'
            | None => None
            end
        end
      else
        match emit ch s with
        | Some s' => utf16_loop big_endian rest s'
        | None => None
        end
  end.

(** Lines 177-193 and 227-243: [for (unsigned char ch : text) { ... }] *)
Fixpoint table_loop (table : list Z) (base : Z) (text : list byte) (s : S)
  : option S :=
  match text with
  | [] => Some s
  | ch :: rest =>
      match emit (table_code_point table base ch) s with
      | Some s' => table_loop table base rest s'
      | None => None
      end
  end.
End Loops.

(** Modelled from the spec: [startswith] (xapian-core,
    common/stringutils.h) is not among the sources.  Section 4.2, step 1:
    the first bytes of the text are inspected against the given ones. *)
Fixpoint startswith (text pfx : list byte) {struct pfx} : bool :=
  match pfx, text with
  | [], _ => true
  | _ :: _, [] => false
  | x :: pfx', y :: text' => Byte.eqb y x && startswith text' pfx'
  end.

(** Lines 61-74.  [None] is [goto try_iconv]; otherwise the flag
    [utf16] and the pointer [p]. *)
Definition utf_prefix (p : string) : option (bool * string) :=
  if strncasecmp p "utf" 3 =? 0 then
    let p := advance 3 p in
    let p := skip_separator p in
    if negb (Ascii.eqb (deref p) "1") || negb (Ascii.eqb (deref (advance 1 p)) "6")
    then None
    else Some (true, advance 2 p)
  else if strncasecmp p "ucs" 3 =? 0 then
    let p := advance 3 p in
    let p := skip_separator p in
    if negb (Ascii.eqb (deref p) "2") then None
    else Some (true, advance 1 p)
  else Some (false, p).

(** Lines 79-97.  [None] is [goto try_iconv]; otherwise [big_endian]
    and the offset of [i] from [text.begin()]. *)
Definition utf16_byte_order (p : string) (text : list byte) : option (bool * nat) :=
  if Ascii.eqb (deref p) Ascii.zero then
    if startswith text [Byte.xfe; Byte.xff] then Some (true, 2%nat)
    else if startswith text [Byte.xff; Byte.xfe] then Some (false, 2%nat)
    else Some (true, 0%nat)
  else if strcasecmp p "LE" =? 0 then Some (false, 0%nat)
  else if negb (strcasecmp p "BE" =? 0) then None
  else Some (true, 0%nat).

(** Lines 101-107: [text_end], as an offset from [text.begin()]. *)
Definition utf16_text_end (text : list byte) : nat :=
  if Nat.odd (length text) then (length text - 1)%nat else length text.

(** The bytes from [i] to [text_end]. *)
Definition span (i text_end : nat) (text : list byte) : list byte :=
  skipn i (firstn text_end text).

(** Where lines 150-171 leave for. *)
Inductive legacy_target : Type :=
| to_cp1252 | to_iso8859_15 | to_try_iconv.

(** Lines 150-171. *)
Definition legacy_label (p : string) : legacy_target :=
  let q :=
    if strncasecmp p "windows" 7 =? 0 then Some (advance 7 p)
    else if strncasecmp p "cp" 2 =? 0 then Some (advance 2 p)
    else None in
  match q with
  | Some q =>
      let q := skip_separator q in
      if negb (strcmp q "1252" =? 0) then to_try_iconv else to_cp1252
  | None =>
      let p :=
        if strncasecmp p "iso" 3 =? 0 then skip_separator (advance 3 p) else p in
      if negb (strncmp p "8859" 4 =? 0) then to_try_iconv
      else
        let p := advance 4 p in
        let p := skip_separator p in
        if negb (Ascii.eqb (deref p) "1") then to_try_iconv
        else if strcmp (advance 1 p) "5" =? 0 then to_iso8859_15
        else if negb (Ascii.eqb (deref (advance 1 p)) Ascii.zero) then to_try_iconv
        else to_cp1252
  end.

(** Lines 42-52: the labels for which nothing is done. *)
Definition already_utf8 (charset : string) : bool :=
  ((String.length charset =? 5)%nat && (strcasecmp (c_str charset) "utf-8" =? 0))
  || ((String.length charset =? 4)%nat && (strcasecmp (c_str charset) "utf8" =? 0))
  || ((String.length charset =? 8)%nat && (strcasecmp (c_str charset) "us-ascii" =? 0))
  || (String.length charset =? 0)%nat.

Section WithIconv.
Variable env : iconv_env.

(** Lines 205-214: [while (in_len) { ... }].  The facility decides
    how often the loop runs; [fuel] bounds the number of calls. *)
Fixpoint iconv_loop (fuel : nat) (conv : iconv_t env) (input tmp : list byte)
  : option (list byte) :=
  match input with
  | [] => Some tmp
  | _ :: _ =>
      match fuel with
      | O => None
      | Datatypes.S fuel' =>
          let r := iconv env conv input sizeof_buf in
          if ic_failed r && negb (ic_e2big r) then Some tmp
          else iconv_loop fuel' (ic_conv r) (ic_in r) (tmp ++ ic_out r)
      end
  end.

(** Lines 198-220, the label [try_iconv], up to the [return]. *)
Definition try_iconv (fuel : nat) (text : list byte) (charset : string)
    (output : list byte) : option (bool * list byte) :=
  if HAVE_ICONV env then
    match iconv_open env "UTF-8" (c_str charset) with
    | None => Some (false, output)
    | Some conv =>
        match iconv_loop fuel conv text [] with
        | Some tmp => Some (true, tmp)
        | None => None
        end
    end
  else Some (false, output).

(** The end of a built-in decoder: [output = std::move(tmp); return true;] *)
Definition converted (r : option staging) : option (bool * list byte) :=
  match r with
  | Some s => Some (true, finish s)
  | None => None
  end.

(** The body of [convert_to_utf8_], over the three statements that
    encode a code point (lines 134-138, 188-192 and 238-242): the
    value returned and the value of [output] afterwards. *)
Definition convert_with (emit : Z -> staging -> option staging)
    (fuel : nat) (text : list byte) (charset : string) (output : list byte)
  : option (bool * list byte) :=
  if already_utf8 charset then Some (false, output)
  else
    match utf_prefix (c_str charset) with
    | None => try_iconv fuel text charset output
    | Some (true, p) =>
        if (length text <? 2)%nat then Some (false, output)
        else
          match utf16_byte_order p text with
          | None => try_iconv fuel text charset output
          | Some (big_endian, i) =>
              converted
                (utf16_loop emit big_endian
                   (span i (utf16_text_end text) text) staging_init)
          end
    | Some (false, p) =>
        match legacy_label p with
        | to_try_iconv => try_iconv fuel text charset output
        | to_iso8859_15 =>
            converted (table_loop emit iso8859_15_to_unicode 164 text staging_init)
        | to_cp1252 =>
            converted (table_loop emit cp1252_to_unicode 128 text staging_init)
        end
    end.

(** [convert_to_utf8_(text, charset, output)] *)
Definition convert_to_utf8_ : nat -> list byte -> string -> list byte
                              -> option (bool * list byte) :=
  convert_with encode.
End WithIconv.

(** *** The decoder a label selects

    The outcome of the label parsing above, named as in the design:
    nothing to do, the UTF-16 decoder with its byte order, a single-byte
    table, or the external facility. *)
Inductive endianness : Type :=
| BigEndian | LittleEndian | DetectFromBOMOrDefaultBE.

Inductive table : Type :=
| Cp1252OrLatin1 | Iso8859_15.

Inductive descriptor : Type :=
| Passthrough
| Utf16 (e : endianness)
| SingleByte (t : table)
| Generic.

(** The tests of lines 81, 93 and 95 on what follows "16" or "2". *)
Definition utf16_suffix (p : string) : option endianness :=
  if Ascii.eqb (deref p) Ascii.zero then Some DetectFromBOMOrDefaultBE
  else if strcasecmp p "LE" =? 0 then Some LittleEndian
  else if negb (strcasecmp p "BE" =? 0) then None
  else Some BigEndian.

(** The label starts like a UTF-16 or UCS-2 name (flag [utf16] set). *)
Definition utf16_prefixed (charset : string) : bool :=
  negb (already_utf8 charset) &&
  match utf_prefix (c_str charset) with
  | Some (true, _) => true
  | _ => false
  end.

Definition dispatch (charset : string) : descriptor :=
  if already_utf8 charset then Passthrough
  else
    match utf_prefix (c_str charset) with
    | None => Generic
    | Some (true, p) =>
        match utf16_suffix p with
        | Some e => Utf16 e
        | None => Generic
        end
    | Some (false, p) =>
        match legacy_label p with
        | to_cp1252 => SingleByte Cp1252OrLatin1
        | to_iso8859_15 => SingleByte Iso8859_15
        | to_try_iconv => Generic
        end
    end.

(** The UTF-16 decoder on a whole text, without byte-order detection:
    lines 99-140 with [i = text.begin()]. *)
Definition utf16_decode (big_endian : bool) (text : list byte) : option (list byte) :=
  match utf16_loop encode big_endian (span 0 (utf16_text_end text) text) staging_init with
  | Some s => Some (finish s)
  | None => None
  end.

(** The assertion that four bytes of [buf] are free, put in front of
    [encode]. *)
Definition encode_checked (ch : Z) (s : staging) : option staging :=
  if (4 <=? sizeof_buf - start s)%nat then encode ch s else None.

End Convert.

Import CStr Convert.
Local Open Scope string_scope.
Local Open Scope list_scope.
Local Open Scope Z_scope.

(** ** Definitions used to state the properties *)

(** A build without iconv. *)
Definition no_iconv : iconv_env :=
  {| HAVE_ICONV := false;
     iconv_t := unit;
     iconv_open := fun _ _ => None;
     iconv := fun c input _ => mk_iconv_result c [] [] false false |}.


(** The staging buffer between two code points: [buf] has its size and
    more than four bytes of it are free. *)
Definition staging_ok (s : staging) : Prop :=
  length (buf s) = sizeof_buf /\ (start s < sizeof_buf - 4)%nat.

(** Everything encoded so far: [tmp] and the used part of [buf]. *)
Definition pending (s : staging) : list byte :=
  tmp s ++ firstn (start s) (buf s).

(** The code points a loop hands to its encoder, in order. *)
Definition collect (ch : Z) (acc : list Z) : option (list Z) := Some (acc ++ [ch]).

Definition utf16_scalars (big_endian : bool) (l : list byte) : option (list Z) :=
  utf16_loop collect big_endian l [].

Fixpoint emit_all {S : Type} (emit : Z -> S -> option S) (l : list Z) (s : S) : option S :=
  match l with
  | [] => Some s
  | ch :: l' =>
      match emit ch s with
      | Some s' => emit_all emit l' s'
      | None => None
      end
  end.

(** The UTF-8 encoding of a sequence of code points. *)
Definition utf8_of (l : list Z) : list byte := flat_map Unicode.to_utf8 l.

(** The two halves of the surrogate range. *)
Definition high_surrogate (u : Z) : Prop := 0xd800 <= u <= 0xdbff.
Definition low_surrogate (u : Z) : Prop := 0xdc00 <= u <= 0xdfff.

(** The byte order and the offset of the first unit, for each of the
    three ways a UTF-16 label ends. *)
Definition byte_order_of (e : endianness) (text : list byte) : bool * nat :=
  match e with
  | BigEndian => (true, 0%nat)
  | LittleEndian => (false, 0%nat)
  | DetectFromBOMOrDefaultBE =>
      if startswith text [Byte.xfe; Byte.xff] then (true, 2%nat)
      else if startswith text [Byte.xff; Byte.xfe] then (false, 2%nat)
      else (true, 0%nat)
  end.

(** The table of a single-byte decoder and the byte value of its first
    entry. *)
Definition table_entries (t : table) : list Z :=
  match t with
  | Cp1252OrLatin1 => cp1252_to_unicode
  | Iso8859_15 => iso8859_15_to_unicode
  end.

Definition table_base (t : table) : Z :=
  match t with
  | Cp1252OrLatin1 => 128
  | Iso8859_15 => 164
  end.

(** The code point of a byte under a table that covers the byte values
    [lo] to [hi]. *)
Definition tabulated (lo hi : Z) (table : list Z) (b : byte) : Z :=
  let v := byte.unsigned b in
  if (lo <=? v) && (v <=? hi) then nth (Z.to_nat (v - lo)) table 0 else v.




(** The facility writes whole characters only: the bytes of each call
    are the encodings of code points that are no surrogates. *)
Definition iconv_writes_characters (env : iconv_env) : Prop :=
  forall (conv : iconv_t env) (input : list byte) (n : nat),
  exists scalars,
    Forall (fun ch => Utf8.in_code_space ch /\ Utf8.is_surrogate ch = false) scalars
    /\ ic_out (iconv env conv input n) = utf8_of scalars.

(** *** Labels up to case *)

(** The label with [tolower] applied to every character. *)
Fixpoint lower (s : string) : string :=
  match s with
  | EmptyString => EmptyString
  | String c r => String (tolower c) (lower r)
  end.

(** No character of the string is NUL. *)
Fixpoint nul_free (s : string) : bool :=
  match s with
  | EmptyString => true
  | String c r => negb (Ascii.eqb c Ascii.zero) && nul_free r
  end.

Definition toupper (c : ascii) : ascii :=
  let n := N_of_ascii c in
  if ((97 <=? n) && (n <=? 122))%N then ascii_of_N (n - 32) else c.

(** All the strings that [lower] sends to [t], for a [t] in lower case. *)
Fixpoint case_variations (t : string) : list string :=
  match t with
  | EmptyString => [EmptyString]
  | String c r =>
      flat_map (fun r' => [String c r'; String (toupper c) r']) (case_variations r)
  end.

(** *** Reference notions for the further properties *)

(** A Unicode scalar value: a code point that is no surrogate. *)
Definition scalar_value (ch : Z) : Prop :=
  Utf8.in_code_space ch /\ Utf8.is_surrogate ch = false.

(** UTF-16 (RFC 2781), as a reference for the decoder: the 16-bit units
    of a scalar value, the two bytes of a unit in either byte order, and
    the encoding of a sequence of scalar values. *)
Definition utf16_units (ch : Z) : list Z :=
  if ch <? 0x10000 then [ch]
  else [0xd800 + Z.shiftr (ch - 0x10000) 10; 0xdc00 + Z.land (ch - 0x10000) 0x3ff].

Definition unit_bytes (big_endian : bool) (u : Z) : list byte :=
  if big_endian then [byte.of_Z (Z.shiftr u 8); byte.of_Z (Z.land u 0xff)]
  else [byte.of_Z (Z.land u 0xff); byte.of_Z (Z.shiftr u 8)].

Definition utf16_encode (big_endian : bool) (scalars : list Z) : list byte :=
  flat_map (fun ch => flat_map (unit_bytes big_endian) (utf16_units ch)) scalars.

(** The text with the two bytes of every unit exchanged. *)
Fixpoint swap_pairs (l : list byte) : list byte :=
  match l with
  | a :: b :: r => b :: a :: swap_pairs r
  | _ => l
  end.

(** The 256 byte values. *)
Definition all_bytes : list byte :=
  map (fun n => byte.of_Z (Z.of_nat n)) (seq 0 256).

(** Every call of the facility (with the whole of [buf] for its output)
    that the loop of lines 205-214 goes on after has consumed some input. *)
Definition iconv_consumes (env : iconv_env) : Prop :=
  forall (conv : iconv_t env) (input : list byte),
    input <> [] ->
    ic_failed (iconv env conv input sizeof_buf)
    && negb (ic_e2big (iconv env conv input sizeof_buf)) = true
    \/ (length (ic_in (iconv env conv input sizeof_buf)) < length input)%nat.

(** An iconv for a source charset that is ASCII: a call copies as many
    input bytes as fit in the output buffer and fails with E2BIG when
    input is left. *)
Definition copy_iconv : iconv_env :=
  {| HAVE_ICONV := true;
     iconv_t := unit;
     iconv_open := fun _ _ => Some tt;
     iconv := fun c input n =>
                mk_iconv_result c (skipn n input) (firstn n input)
                  (negb (length input <=? n)%nat) true |}.

(** A character that [tolower] and [toupper] leave alone and that is the
    image of no other character. *)
Definition caseless (d : ascii) : Prop := tolower d = d /\ toupper d = d.

Fixpoint all_caseless (t : string) : Prop :=
  match t with
  | EmptyString => True
  | String d r => caseless d /\ all_caseless r
  end.

(** The bytes on which the cp1252 table and the iso-8859-15 table give
    the same code point, and the 35 byte values of the others. *)
Definition tables_agree (b : byte) : bool :=
  table_code_point cp1252_to_unicode 128 b
  =? table_code_point iso8859_15_to_unicode 164 b.

Definition differing_bytes : list Z :=
  [ 0x80; 0x82; 0x83; 0x84; 0x85; 0x86; 0x87; 0x88; 0x89; 0x8a; 0x8b; 0x8c;
    0x8e; 0x91; 0x92; 0x93; 0x94; 0x95; 0x96; 0x97; 0x98; 0x99; 0x9a; 0x9b;
    0x9c; 0x9e; 0x9f; 0xa4; 0xa6; 0xa8; 0xb4; 0xb8; 0xbc; 0xbd; 0xbe ].

(** *** The names of the decoders

    The spellings, in lower case, of the labels of each built-in
    decoder: an optional separator is a hyphen, an underscore, a space
    or nothing. *)
Definition separators : list string := [""; "-"; "_"; " "]%string.

Definition order_suffix (e : endianness) : string :=
  match e with
  | DetectFromBOMOrDefaultBE => ""
  | LittleEndian => "le"
  | BigEndian => "be"
  end.

Definition utf16_names (e : endianness) : list string :=
  flat_map (fun sep => [("utf" ++ sep ++ "16" ++ order_suffix e)%string;
                        ("ucs" ++ sep ++ "2" ++ order_suffix e)%string])
    separators.

Definition iso_prefixes : list string :=
  EmptyString :: map (fun sep => ("iso" ++ sep)%string) separators.

Definition iso8859_names (number : string) : list string :=
  flat_map (fun pre => map (fun sep => (pre ++ "8859" ++ sep ++ number)%string) separators)
    iso_prefixes.

Definition single_byte_names (t : table) : list string :=
  match t with
  | Cp1252OrLatin1 =>
      flat_map (fun sep => [("windows" ++ sep ++ "1252")%string;
                            ("cp" ++ sep ++ "1252")%string]) separators
      ++ iso8859_names "1"
  | Iso8859_15 => iso8859_names "15"
  end.

(** The decoder selected by the C string of a label that is none of the
    names of lines 42-52: [dispatch] after its first test. *)
Definition route (s : string) : descriptor :=
  match utf_prefix s with
  | None => Generic
  | Some (true, p) =>
      match utf16_suffix p with
      | Some e => Utf16 e
      | None => Generic
      end
  | Some (false, p) =>
      match legacy_label p with
      | to_cp1252 => SingleByte Cp1252OrLatin1
      | to_iso8859_15 => SingleByte Iso8859_15
      | to_try_iconv => Generic
      end
  end.

(** *** Iterations of the UTF-16 loop within a text

    The loop of lines 109-139, run on these bytes, steps through them in
    complete iterations: no single byte is left over and no high
    surrogate is read first with nothing behind it.  In a longer text an
    iteration of the loop starts right behind such bytes. *)
Fixpoint consumed_whole (big_endian : bool) (l : list byte) : bool :=
  match l with
  | [] => true
  | [_] => false
  | c :: c2 :: rest =>
      if Z.shiftr (unit16 big_endian c c2) 10 =? Z.shiftr 0xd800 10 then
        match rest with
        | _ :: _ :: rest' => consumed_whole big_endian rest'
        | _ => false
        end
      else consumed_whole big_endian rest
  end.

(** The value of [big_endian] under a label that names the byte order. *)
Definition named_order (e : endianness) : option bool :=
  match e with
  | BigEndian => Some true
  | LittleEndian => Some false
  | DetectFromBOMOrDefaultBE => None
  end.

(** An iconv that opens a descriptor for every name and whose calls
    fail with an error other than E2BIG (an invalid input sequence, say)
    after writing the first input byte and consuming nothing. *)
Definition failing_iconv : iconv_env :=
  {| HAVE_ICONV := true;
     iconv_t := unit;
     iconv_open := fun _ _ => Some tt;
     iconv := fun c input n => mk_iconv_result c input (firstn 1 input) true false |}.

(** *** Tactics for comparisons of byte values *)

Ltac decide_leb :=
  repeat match goal with
  | |- context [?a <=? ?b] =>
      first
        [ replace (a <=? b) with true
            by (symmetry; apply Z.leb_le; Z.div_mod_to_equations; lia)
        | replace (a <=? b) with false
            by (symmetry; apply Z.leb_gt; Z.div_mod_to_equations; lia) ]
  end.

Ltac settle_row :=
  cbn [app Utf8.well_formed_values];
  unfold Utf8.continuation, Utf8.between, Utf8.is_surrogate;
  decide_leb; cbn [andb orb negb]; try reflexivity.

(** Finding a name in one of the lists of names. *)
Ltac pick_name :=
  cbn; repeat (first [left; reflexivity | right]).

(** ** Bits and bytes *)

Lemma lor_disjoint (hi lo k : Z) :
  0 <= k -> 0 <= lo < 2 ^ k -> hi mod 2 ^ k = 0 -> Z.lor hi lo = hi + lo.
Proof.
  intros Hk Hlo Hhi.
  apply Z.or_to_plus.
  apply Z.bits_inj'; intros i Hi.
  rewrite Z.land_spec, Z.bits_0.
  destruct (Z.lt_ge_cases i k) as [Hlt | Hge].
  - replace hi with (hi / 2 ^ k * 2 ^ k).
    + rewrite Z.mul_pow2_bits_low by lia. reflexivity.
    + pose proof (Z.div_mod hi (2 ^ k)) as D. lia.
  - replace lo with (lo mod 2 ^ k) by (apply Z.mod_small; lia).
    rewrite Z.mod_pow2_bits_high by lia.
    apply andb_false_r.
Qed.

Lemma unsigned_of_Z_small (z : Z) : 0 <= z < 256 -> byte.unsigned (byte.of_Z z) = z.
Proof.
  intros H. rewrite byte.unsigned_of_Z. unfold byte.wrap.
  apply Z.mod_small. lia.
Qed.

Lemma land_0x3f (x : Z) : Z.land x 0x3f = x mod 64.
Proof. change 0x3f with (Z.ones 6). rewrite Z.land_ones by lia. reflexivity. Qed.

Lemma land_0x3ff (x : Z) : Z.land x 0x3ff = x mod 1024.
Proof. change 0x3ff with (Z.ones 10). rewrite Z.land_ones by lia. reflexivity. Qed.

Lemma u32_small (x : Z) : 0 <= x < 2 ^ 32 -> u32 x = x.
Proof. intros H. unfold u32. apply Z.mod_small. exact H. Qed.

(** The bytes of [to_utf8], as numbers. *)
Lemma to_utf8_values (ch : Z) :
  0 <= ch <= 0x10ffff ->
  map byte.unsigned (Unicode.to_utf8 ch) =
    if ch <? 0x80 then [ch]
    else if ch <? 0x800 then [0xc0 + ch / 64; 0x80 + ch mod 64]
    else if ch <? 0x10000 then
      [0xe0 + ch / 4096; 0x80 + (ch / 64) mod 64; 0x80 + ch mod 64]
    else
      [0xf0 + ch / 262144; 0x80 + (ch / 4096) mod 64;
       0x80 + (ch / 64) mod 64; 0x80 + ch mod 64].
Proof.
  intros H. unfold Unicode.to_utf8.
  assert (C : forall x, Z.lor 0x80 (x mod 64) = 0x80 + x mod 64).
  { intros x. apply (lor_disjoint _ _ 6); [lia | apply Z.mod_pos_bound; lia | reflexivity]. }
  assert (B : forall x, 0 <= 0x80 + x mod 64 < 256).
  { intros x. pose proof (Z.mod_pos_bound x 64). lia. }
  rewrite !land_0x3f, !Z.shiftr_div_pow2 by lia.
  change (2 ^ 6) with 64; change (2 ^ 12) with 4096; change (2 ^ 18) with 262144.
  rewrite !C.
  destruct (Z.ltb_spec ch 0x80); [|destruct (Z.ltb_spec ch 0x800); [|destruct (Z.ltb_spec ch 0x10000)]];
    cbn [map]; rewrite ?(unsigned_of_Z_small (0x80 + _ mod 64)) by apply B.
  - rewrite unsigned_of_Z_small by lia. reflexivity.
  - rewrite (lor_disjoint 0xc0 (ch / 64) 5) by (try reflexivity; Z.div_mod_to_equations; lia).
    rewrite unsigned_of_Z_small by (Z.div_mod_to_equations; lia). reflexivity.
  - rewrite (lor_disjoint 0xe0 (ch / 4096) 4) by (try reflexivity; Z.div_mod_to_equations; lia).
    rewrite unsigned_of_Z_small by (Z.div_mod_to_equations; lia). reflexivity.
  - rewrite (lor_disjoint 0xf0 (ch / 262144) 3) by (try reflexivity; Z.div_mod_to_equations; lia).
    rewrite unsigned_of_Z_small by (Z.div_mod_to_equations; lia). reflexivity.
Qed.

Lemma to_utf8_length (ch : Z) :
  (1 <= length (Unicode.to_utf8 ch) <= 4)%nat.
Proof.
  unfold Unicode.to_utf8.
  destruct (ch <? 0x80); [|destruct (ch <? 0x800); [|destruct (ch <? 0x10000)]];
    cbn [length]; lia.
Qed.

(** ** The encoding of one code point is well formed unless it is a surrogate *)

Lemma well_formed_values_to_utf8 (ch : Z) (rest : list Z) :
  Utf8.in_code_space ch ->
  Utf8.well_formed_values (map byte.unsigned (Unicode.to_utf8 ch) ++ rest) =
    negb (Utf8.is_surrogate ch) && Utf8.well_formed_values rest.
Proof.
  unfold Utf8.in_code_space. intros H.
  rewrite to_utf8_values by exact H.
  destruct (Z.ltb_spec ch 0x80); [|destruct (Z.ltb_spec ch 0x800); [|destruct (Z.ltb_spec ch 0x10000)]].
  - settle_row.
  - settle_row.
  - destruct (Z.lt_ge_cases ch 0x1000); [settle_row|].
    destruct (Z.lt_ge_cases ch 0xd000); [settle_row|].
    destruct (Z.lt_ge_cases ch 0xd800); [settle_row|].
    destruct (Z.lt_ge_cases ch 0xe000); [settle_row|].
    settle_row.
  - destruct (Z.lt_ge_cases ch 0x40000); [settle_row|].
    destruct (Z.lt_ge_cases ch 0x100000); [settle_row|].
    settle_row.
Qed.
(** ** The staging buffer *)

Lemma finish_pending (s : staging) : finish s = pending s.
Proof.
  unfold finish, pending.
  destruct (Nat.eqb_spec (start s) 0) as [E | E].
  - rewrite E. cbn [firstn]. rewrite app_nil_r. reflexivity.
  - reflexivity.
Qed.

Lemma staging_init_ok : staging_ok staging_init.
Proof. split; [apply repeat_length | vm_compute; lia]. Qed.

Lemma pending_init : pending staging_init = [].
Proof. reflexivity. Qed.

Lemma store_length (b : list byte) (off : nat) (bytes : list byte) :
  (off + length bytes <= length b)%nat -> length (store b off bytes) = length b.
Proof.
  intros H. unfold store.
  rewrite !length_app, length_firstn, length_skipn. lia.
Qed.

Lemma store_firstn (b : list byte) (off : nat) (bytes : list byte) :
  (off + length bytes <= length b)%nat ->
  firstn (off + length bytes) (store b off bytes) = firstn off b ++ bytes.
Proof.
  intros H. unfold store.
  assert (L : length (firstn off b) = off) by (rewrite length_firstn; lia).
  rewrite app_assoc.
  rewrite firstn_app.
  rewrite length_app, L.
  replace (off + length bytes - (off + length bytes))%nat with 0%nat by lia.
  cbn [firstn]. rewrite app_nil_r.
  apply firstn_all2. rewrite length_app, L. lia.
Qed.

(** One encoding step from a state with more than four free bytes stays
    inside [buf], appends exactly the bytes of the code point, and leaves
    more than four free bytes again. *)
Lemma encode_ok (ch : Z) (s : staging) :
  staging_ok s ->
  exists s', encode ch s = Some s' /\ staging_ok s'
             /\ pending s' = pending s ++ Unicode.to_utf8 ch.
Proof.
  intros [Hlen Hstart].
  pose proof (to_utf8_length ch) as Hn.
  unfold sizeof_buf in *.
  assert (Hfit : (start s + length (Unicode.to_utf8 ch) <= length (buf s))%nat) by lia.
  unfold encode, sizeof_buf.
  destruct (Nat.leb_spec (start s + length (Unicode.to_utf8 ch)) 1024) as [_ | Hc]; [|lia].
  destruct (Nat.leb_spec (1024 - 4) (start s + length (Unicode.to_utf8 ch))) as [Hflush | Hkeep].
  - eexists. split; [reflexivity|]. split.
    + split; cbn [buf start]; [rewrite store_length by exact Hfit; exact Hlen | unfold sizeof_buf; lia].
    + unfold pending. cbn [buf start tmp firstn].
      rewrite store_firstn by exact Hfit.
      rewrite app_nil_r, app_assoc. reflexivity.
  - eexists. split; [reflexivity|]. split.
    + split; cbn [buf start]; [rewrite store_length by exact Hfit; exact Hlen | unfold sizeof_buf; lia].
    + unfold pending. cbn [buf start tmp].
      rewrite store_firstn by exact Hfit.
      rewrite app_assoc. reflexivity.
Qed.

Lemma encode_checked_ok (ch : Z) (s : staging) :
  staging_ok s -> encode_checked ch s = encode ch s.
Proof.
  intros [_ Hstart]. unfold encode_checked.
  destruct (Nat.leb_spec 4 (sizeof_buf - start s)) as [_ | Hc]; [reflexivity | lia].
Qed.

Lemma emit_all_encode (l : list Z) :
  forall s, staging_ok s ->
  exists s', emit_all encode l s = Some s' /\ staging_ok s'
             /\ pending s' = pending s ++ utf8_of l.
Proof.
  induction l as [|ch l IH]; intros s Hs.
  - exists s. cbn. rewrite app_nil_r. auto.
  - destruct (encode_ok ch s Hs) as (s1 & E1 & Hs1 & P1).
    destruct (IH s1 Hs1) as (s2 & E2 & Hs2 & P2).
    exists s2. cbn [emit_all]. rewrite E1. split; [exact E2|]. split; [exact Hs2|].
    rewrite P2, P1. unfold utf8_of. cbn [flat_map]. rewrite app_assoc. reflexivity.
Qed.

Lemma emit_all_encode_checked (l : list Z) :
  forall s, staging_ok s -> emit_all encode_checked l s = emit_all encode l s.
Proof.
  induction l as [|ch l IH]; intros s Hs; [reflexivity|].
  cbn [emit_all]. rewrite encode_checked_ok by exact Hs.
  destruct (encode_ok ch s Hs) as (s1 & E1 & Hs1 & _).
  rewrite E1. apply IH. exact Hs1.
Qed.

(** ** The loops hand their code points to the encoder one by one *)

Section LoopFacts.
Context {S : Type}.
Variable emit : Z -> S -> option S.

Lemma table_loop_emit_all (table : list Z) (base : Z) (text : list byte) :
  forall s, table_loop emit table base text s
            = emit_all emit (map (table_code_point table base) text) s.
Proof.
  induction text as [|ch rest IH]; intros s; [reflexivity|].
  cbn [table_loop map emit_all].
  destruct (emit _ s); [apply IH | reflexivity].
Qed.
End LoopFacts.

Lemma utf16_collect_acc (big_endian : bool) (n : nat) :
  forall l acc, (length l <= n)%nat ->
  utf16_loop collect big_endian l acc
  = option_map (fun r => acc ++ r) (utf16_loop collect big_endian l []).
Proof.
  induction n as [|n IH]; intros l acc Hl.
  - destruct l; [|cbn in Hl; lia]. cbn. rewrite app_nil_r. reflexivity.
  - destruct l as [|c [|c2 rest]]; [cbn; rewrite app_nil_r; reflexivity | reflexivity |].
    cbn [utf16_loop].
    destruct (Z.shiftr (unit16 big_endian c c2) 10 =? Z.shiftr 55296 10).
    + destruct rest as [|d [|d2 rest']]; [cbn; rewrite app_nil_r; reflexivity | reflexivity |].
      unfold collect at 1 3. cbn [app].
      rewrite (IH rest' (acc ++ _)) by (cbn in Hl; lia).
      rewrite (IH rest' [_]) by (cbn in Hl; lia).
      destruct (utf16_loop collect big_endian rest' []); cbn [option_map]; [|reflexivity].
      rewrite <- app_assoc. reflexivity.
    + unfold collect at 1 3. cbn [app].
      rewrite (IH rest (acc ++ _)) by (cbn in Hl; lia).
      rewrite (IH rest [_]) by (cbn in Hl; lia).
      destruct (utf16_loop collect big_endian rest []); cbn [option_map]; [|reflexivity].
      rewrite <- app_assoc. reflexivity.
Qed.

Lemma utf16_loop_emit_all {S : Type} (emit : Z -> S -> option S)
    (big_endian : bool) (n : nat) :
  forall l s, (length l <= n)%nat ->
  utf16_loop emit big_endian l s
  = match utf16_scalars big_endian l with
    | Some scalars => emit_all emit scalars s
    | None => None
    end.
Proof.
  unfold utf16_scalars.
  induction n as [|n IH]; intros l s Hl.
  - destruct l; [reflexivity | cbn in Hl; lia].
  - destruct l as [|c [|c2 rest]]; [reflexivity | reflexivity |].
    cbn [utf16_loop].
    destruct (Z.shiftr (unit16 big_endian c c2) 10 =? Z.shiftr 55296 10).
    + destruct rest as [|d [|d2 rest']]; [reflexivity | reflexivity |].
      unfold collect at 1. cbn [app].
      rewrite (utf16_collect_acc big_endian (length rest') rest' [_]) by lia.
      destruct (emit _ s) as [s'|] eqn:E.
      * rewrite (IH rest') by (cbn in Hl; lia).
        destruct (utf16_loop collect big_endian rest' []); cbn [option_map app emit_all];
          [rewrite E|]; reflexivity.
      * destruct (utf16_loop collect big_endian rest' []); cbn [option_map app emit_all];
          [rewrite E|]; reflexivity.
    + unfold collect at 1. cbn [app].
      rewrite (utf16_collect_acc big_endian (length rest) rest [_]) by lia.
      destruct (emit _ s) as [s'|] eqn:E.
      * rewrite (IH rest) by (cbn in Hl; lia).
        destruct (utf16_loop collect big_endian rest []); cbn [option_map app emit_all];
          [rewrite E|]; reflexivity.
      * destruct (utf16_loop collect big_endian rest []); cbn [option_map app emit_all];
          [rewrite E|]; reflexivity.
Qed.

(** ** 16-bit units and surrogates *)

Lemma unit16_value (big_endian : bool) (c c2 : byte) :
  unit16 big_endian c c2 =
    if big_endian then 256 * byte.unsigned c + byte.unsigned c2
    else 256 * byte.unsigned c2 + byte.unsigned c.
Proof.
  pose proof (byte.unsigned_range c) as Hc.
  pose proof (byte.unsigned_range c2) as Hc2.
  change (2 ^ 8) with 256 in *.
  unfold unit16.
  rewrite !Z.shiftl_mul_pow2 by lia. change (2 ^ 8) with 256.
  rewrite !u32_small by (change (2 ^ 32) with 4294967296; lia).
  destruct big_endian;
    rewrite (lor_disjoint _ _ 8)
      by (change (2 ^ 8) with 256; first [lia | apply Z.mod_mul; discriminate]);
    lia.
Qed.

Lemma unit16_range (big_endian : bool) (c c2 : byte) :
  0 <= unit16 big_endian c c2 <= 0xffff.
Proof.
  pose proof (byte.unsigned_range c) as Hc.
  pose proof (byte.unsigned_range c2) as Hc2.
  change (2 ^ 8) with 256 in *.
  rewrite unit16_value. destruct big_endian; lia.
Qed.

Lemma high_test (u : Z) :
  (Z.shiftr u 10 =? Z.shiftr 0xd800 10) = true <-> high_surrogate u.
Proof.
  unfold high_surrogate.
  rewrite !Z.shiftr_div_pow2 by lia. change (2 ^ 10) with 1024.
  change (0xd800 / 1024) with 54.
  rewrite Z.eqb_eq. split; intros H; Z.div_mod_to_equations; lia.
Qed.

Lemma low_test (u : Z) :
  (Z.shiftr u 10 =? Z.shiftr 0xdc00 10) = true <-> low_surrogate u.
Proof.
  unfold low_surrogate.
  rewrite !Z.shiftr_div_pow2 by lia. change (2 ^ 10) with 1024.
  change (0xdc00 / 1024) with 55.
  rewrite Z.eqb_eq. split; intros H; Z.div_mod_to_equations; lia.
Qed.

(** Lines 129-131 compute the scalar value of the pair. *)
Lemma combine_value (u v : Z) :
  u32 (Z.lor (Z.land v 0x3ff) (u32 (Z.shiftl (Z.land u 0x3ff) 10)) + 0x10000)
  = 0x10000 + Z.shiftl (Z.land u 0x3ff) 10 + Z.land v 0x3ff.
Proof.
  rewrite !land_0x3ff.
  pose proof (Z.mod_pos_bound u 1024) as Hu.
  pose proof (Z.mod_pos_bound v 1024) as Hv.
  rewrite Z.shiftl_mul_pow2 by lia. change (2 ^ 10) with 1024.
  rewrite (u32_small (u mod 1024 * 1024)) by (change (2 ^ 32) with 4294967296; lia).
  rewrite Z.lor_comm.
  rewrite (lor_disjoint _ _ 10)
    by (change (2 ^ 10) with 1024; first [lia | apply Z.mod_mul; discriminate]).
  rewrite u32_small by (change (2 ^ 32) with 4294967296; lia).
  lia.
Qed.

Lemma combine_range (u v : Z) :
  0x10000 <= 0x10000 + Z.shiftl (Z.land u 0x3ff) 10 + Z.land v 0x3ff <= 0x10ffff.
Proof.
  rewrite !land_0x3ff.
  pose proof (Z.mod_pos_bound u 1024) as Hu.
  pose proof (Z.mod_pos_bound v 1024) as Hv.
  rewrite Z.shiftl_mul_pow2 by lia. change (2 ^ 10) with 1024. lia.
Qed.

(** ** One iteration of the UTF-16 loop *)

Section Utf16Steps.
Context {S : Type}.
Variable emit : Z -> S -> option S.
Variable big_endian : bool.

Lemma utf16_step_plain (c c2 : byte) (rest : list byte) (s : S) :
  ~ high_surrogate (unit16 big_endian c c2) ->
  utf16_loop emit big_endian (c :: c2 :: rest) s =
    match emit (unit16 big_endian c c2) s with
    | Some s' => utf16_loop emit big_endian rest s'
    | None => None
    end.
Proof.
  intros H. cbn [utf16_loop].
  destruct (Z.shiftr (unit16 big_endian c c2) 10 =? Z.shiftr 0xd800 10) eqn:E.
  - apply high_test in E. contradiction.
  - reflexivity.
Qed.

Lemma utf16_step_pair (c c2 d d2 : byte) (rest : list byte) (s : S) :
  high_surrogate (unit16 big_endian c c2) ->
  low_surrogate (unit16 big_endian d d2) ->
  utf16_loop emit big_endian (c :: c2 :: d :: d2 :: rest) s =
    match emit (0x10000 + Z.shiftl (Z.land (unit16 big_endian c c2) 0x3ff) 10
                + Z.land (unit16 big_endian d d2) 0x3ff) s with
    | Some s' => utf16_loop emit big_endian rest s'
    | None => None
    end.
Proof.
  intros Hu Hv. cbn [utf16_loop].
  apply high_test in Hu. apply low_test in Hv.
  rewrite Hu, Hv, combine_value. reflexivity.
Qed.

Lemma utf16_step_unpaired (c c2 d d2 : byte) (rest : list byte) (s : S) :
  high_surrogate (unit16 big_endian c c2) ->
  ~ low_surrogate (unit16 big_endian d d2) ->
  utf16_loop emit big_endian (c :: c2 :: d :: d2 :: rest) s =
    match emit (unit16 big_endian d d2) s with
    | Some s' => utf16_loop emit big_endian rest s'
    | None => None
    end.
Proof.
  intros Hu Hv. cbn [utf16_loop].
  apply high_test in Hu. rewrite Hu.
  destruct (Z.shiftr (unit16 big_endian d d2) 10 =? Z.shiftr 0xdc00 10) eqn:E.
  - apply low_test in E. contradiction.
  - reflexivity.
Qed.

Lemma utf16_step_last_high (c c2 : byte) (s : S) :
  high_surrogate (unit16 big_endian c c2) ->
  utf16_loop emit big_endian [c; c2] s = Some s.
Proof.
  intros Hu. cbn [utf16_loop].
  apply high_test in Hu. rewrite Hu. reflexivity.
Qed.
End Utf16Steps.

(** ** The code points of an even number of bytes *)

Lemma utf16_scalars_total (big_endian : bool) (n : nat) :
  forall l, (length l <= n)%nat -> Nat.even (length l) = true ->
  exists scalars, utf16_scalars big_endian l = Some scalars
                  /\ Forall Utf8.in_code_space scalars.
Proof.
  unfold utf16_scalars.
  induction n as [|n IH]; intros l Hl He.
  - destruct l; [|cbn in Hl; lia]. exists []. split; [reflexivity | constructor].
  - destruct l as [|c [|c2 rest]]; [exists []; split; [reflexivity | constructor] | discriminate He |].
    cbn [length] in Hl, He.
    cbn [utf16_loop].
    pose proof (unit16_range big_endian c c2) as Ru.
    destruct (Z.shiftr (unit16 big_endian c c2) 10 =? Z.shiftr 0xd800 10).
    + destruct rest as [|d [|d2 rest']];
        [exists []; split; [reflexivity | constructor] | discriminate He |].
      cbn [length] in Hl, He.
      destruct (IH rest') as (scs & E & F); [lia | exact He |].
      unfold collect at 1. cbn [app].
      rewrite (utf16_collect_acc big_endian (length rest') rest' [_]) by lia.
      rewrite E. cbn [option_map app].
      eexists. split; [reflexivity|].
      constructor; [|exact F].
      pose proof (unit16_range big_endian d d2) as Rv.
      destruct (Z.shiftr (unit16 big_endian d d2) 10 =? Z.shiftr 0xdc00 10).
      * rewrite combine_value. pose proof (combine_range (unit16 big_endian c c2) (unit16 big_endian d d2)).
        unfold Utf8.in_code_space. lia.
      * unfold Utf8.in_code_space. lia.
    + destruct (IH rest) as (scs & E & F); [lia | exact He |].
      unfold collect at 1. cbn [app].
      rewrite (utf16_collect_acc big_endian (length rest) rest [_]) by lia.
      rewrite E. cbn [option_map app].
      eexists. split; [reflexivity|].
      constructor; [|exact F].
      unfold Utf8.in_code_space. lia.
Qed.

(** The bytes between [i] and [text_end] come in pairs. *)
Lemma utf16_text_end_even (text : list byte) :
  Nat.even (utf16_text_end text) = true /\ (utf16_text_end text <= length text)%nat.
Proof.
  unfold utf16_text_end.
  destruct (Nat.odd (length text)) eqn:E.
  - split; [|lia].
    destruct (length text) as [|m]; [discriminate E|].
    cbn [Nat.sub]. rewrite Nat.sub_0_r.
    rewrite Nat.odd_succ in E. exact E.
  - split; [|lia].
    unfold Nat.odd in E. destruct (Nat.even (length text)); [reflexivity | discriminate E].
Qed.

Lemma span_length (i : nat) (text : list byte) :
  length (span i (utf16_text_end text) text) = (utf16_text_end text - i)%nat.
Proof.
  destruct (utf16_text_end_even text) as [_ H].
  unfold span. rewrite length_skipn, length_firstn. lia.
Qed.

Lemma utf16_text_end_ge2 (text : list byte) :
  (2 <= length text)%nat -> (2 <= utf16_text_end text)%nat.
Proof.
  unfold utf16_text_end. intros H.
  destruct (length text) as [|[|[|m]]]; [lia | lia | cbn; lia |].
  destruct (Nat.odd _); lia.
Qed.

Lemma span_even (i : nat) (text : list byte) :
  i = 0%nat \/ (i = 2%nat /\ (2 <= length text)%nat) ->
  Nat.even (length (span i (utf16_text_end text) text)) = true.
Proof.
  intros Hi. rewrite span_length.
  destruct (utf16_text_end_even text) as [He Hle].
  destruct Hi as [-> | [-> H2]]; [rewrite Nat.sub_0_r; exact He|].
  pose proof (utf16_text_end_ge2 text H2) as G.
  rewrite Nat.even_sub by exact G.
  rewrite He. reflexivity.
Qed.

(** ** What [convert_to_utf8_] does for each outcome of the label parsing *)

Section Dispatch.
Variable env : iconv_env.
Variable emit : Z -> staging -> option staging.
Variables (fuel : nat) (text : list byte) (charset : string) (output : list byte).

Lemma dispatch_passthrough :
  dispatch charset = Passthrough <-> already_utf8 charset = true.
Proof.
  unfold dispatch.
  destruct (already_utf8 charset); [tauto|].
  destruct (utf_prefix (c_str charset)) as [[[] p]|].
  - destruct (utf16_suffix p); split; discriminate.
  - destruct (legacy_label p); split; discriminate.
  - split; discriminate.
Qed.

Lemma convert_passthrough :
  dispatch charset = Passthrough ->
  convert_with env emit fuel text charset output = Some (false, output).
Proof.
  intros H. apply dispatch_passthrough in H.
  unfold convert_with. rewrite H. reflexivity.
Qed.

Lemma utf16_byte_order_suffix (p : string) :
  utf16_byte_order p text = option_map (fun e => byte_order_of e text) (utf16_suffix p).
Proof.
  unfold utf16_byte_order, utf16_suffix, byte_order_of.
  destruct (Ascii.eqb (deref p) Ascii.zero).
  - cbn [option_map].
    destruct (startswith text [Byte.xfe; Byte.xff]); [reflexivity|].
    destruct (startswith text [Byte.xff; Byte.xfe]); reflexivity.
  - destruct (strcasecmp p "LE" =? 0); [reflexivity|].
    destruct (strcasecmp p "BE" =? 0); reflexivity.
Qed.

Lemma dispatch_utf16_prefixed (e : endianness) :
  dispatch charset = Utf16 e -> utf16_prefixed charset = true.
Proof.
  unfold dispatch, utf16_prefixed.
  destruct (already_utf8 charset); [discriminate|].
  destruct (utf_prefix (c_str charset)) as [[[] p]|]; [reflexivity | |discriminate].
  destruct (legacy_label p); discriminate.
Qed.

Lemma convert_utf16_short :
  utf16_prefixed charset = true -> (length text < 2)%nat ->
  convert_with env emit fuel text charset output = Some (false, output).
Proof.
  unfold utf16_prefixed, convert_with. intros H Hlen.
  destruct (already_utf8 charset); [reflexivity|].
  destruct (utf_prefix (c_str charset)) as [[[] p]|]; try discriminate H.
  destruct (Nat.ltb_spec (length text) 2); [reflexivity | lia].
Qed.

Lemma convert_utf16 (e : endianness) :
  dispatch charset = Utf16 e -> (2 <= length text)%nat ->
  convert_with env emit fuel text charset output =
    converted
      (utf16_loop emit (fst (byte_order_of e text))
         (span (snd (byte_order_of e text)) (utf16_text_end text) text) staging_init).
Proof.
  unfold dispatch, convert_with. intros H Hlen.
  destruct (already_utf8 charset); [discriminate|].
  destruct (utf_prefix (c_str charset)) as [[[] p]|]; [| |discriminate].
  - destruct (Nat.ltb_spec (length text) 2); [lia|].
    rewrite utf16_byte_order_suffix.
    destruct (utf16_suffix p) as [e'|]; [|discriminate].
    injection H as ->. cbn [option_map].
    destruct (byte_order_of e text). reflexivity.
  - destruct (legacy_label p); discriminate.
Qed.

Lemma convert_single_byte (t : table) :
  dispatch charset = SingleByte t ->
  convert_with env emit fuel text charset output =
    converted (table_loop emit (table_entries t) (table_base t) text staging_init).
Proof.
  unfold dispatch, convert_with. intros H.
  destruct (already_utf8 charset); [discriminate|].
  destruct (utf_prefix (c_str charset)) as [[[] p]|]; [| |discriminate].
  - destruct (utf16_suffix p); discriminate.
  - destruct (legacy_label p); try discriminate; injection H as <-; reflexivity.
Qed.

Lemma convert_generic :
  dispatch charset = Generic ->
  convert_with env emit fuel text charset output =
    if utf16_prefixed charset && (length text <? 2)%nat then Some (false, output)
    else try_iconv env fuel text charset output.
Proof.
  unfold dispatch, convert_with, utf16_prefixed. intros H.
  destruct (already_utf8 charset); [discriminate|]. cbn [negb andb].
  destruct (utf_prefix (c_str charset)) as [[[] p]|]; [| |reflexivity].
  - destruct (length text <? 2)%nat; [reflexivity|].
    rewrite utf16_byte_order_suffix.
    destruct (utf16_suffix p); [discriminate | reflexivity].
  - destruct (legacy_label p); try discriminate. reflexivity.
Qed.
End Dispatch.

(** ** The result of the built-in decoders *)

Lemma table_loop_result (table : list Z) (base : Z) (text : list byte) :
  exists s, table_loop encode table base text staging_init = Some s
            /\ table_loop encode_checked table base text staging_init = Some s
            /\ finish s = utf8_of (map (table_code_point table base) text).
Proof.
  rewrite !table_loop_emit_all.
  rewrite emit_all_encode_checked by exact staging_init_ok.
  destruct (emit_all_encode (map (table_code_point table base) text) staging_init
              staging_init_ok) as (s & E & _ & P).
  exists s. split; [exact E|]. split; [exact E|].
  rewrite finish_pending, P, pending_init. reflexivity.
Qed.

Lemma utf16_loop_result (big_endian : bool) (l : list byte) :
  Nat.even (length l) = true ->
  exists scalars s,
    utf16_scalars big_endian l = Some scalars
    /\ Forall Utf8.in_code_space scalars
    /\ utf16_loop encode big_endian l staging_init = Some s
    /\ utf16_loop encode_checked big_endian l staging_init = Some s
    /\ finish s = utf8_of scalars.
Proof.
  intros He.
  destruct (utf16_scalars_total big_endian (length l) l (le_n _) He) as (scs & E & F).
  destruct (emit_all_encode scs staging_init staging_init_ok) as (s & Es & _ & P).
  exists scs, s. split; [exact E|]. split; [exact F|].
  rewrite !(utf16_loop_emit_all _ big_endian (length l) l) by lia.
  rewrite E, emit_all_encode_checked by exact staging_init_ok.
  split; [exact Es|]. split; [exact Es|].
  rewrite finish_pending, P, pending_init. reflexivity.
Qed.

(** ** Well-formedness of encoded sequences *)

Lemma well_formed_utf8_of (scalars : list Z) :
  Forall Utf8.in_code_space scalars ->
  Utf8.well_formed (utf8_of scalars)
  = forallb (fun ch => negb (Utf8.is_surrogate ch)) scalars.
Proof.
  unfold Utf8.well_formed, utf8_of.
  induction 1 as [|ch l Hch _ IH]; [reflexivity|].
  cbn [flat_map forallb]. rewrite map_app.
  rewrite well_formed_values_to_utf8 by exact Hch.
  rewrite IH. reflexivity.
Qed.

Lemma forallb_no_surrogate (scalars : list Z) :
  Forall (fun ch => Utf8.in_code_space ch /\ Utf8.is_surrogate ch = false) scalars ->
  Forall Utf8.in_code_space scalars
  /\ forallb (fun ch => negb (Utf8.is_surrogate ch)) scalars = true.
Proof.
  induction 1 as [|ch l [Hc Hs] _ [IH1 IH2]]; [split; [constructor | reflexivity]|].
  split; [constructor; assumption|].
  cbn [forallb]. rewrite Hs, IH2. reflexivity.
Qed.

(** ** The tables *)

Lemma table_code_point_tabulated (t : table) (b : byte) :
  table_code_point (table_entries t) (table_base t) b
  = match t with
    | Cp1252OrLatin1 => tabulated 0x80 0x9f cp1252_to_unicode b
    | Iso8859_15 => tabulated 0xa4 0xbe iso8859_15_to_unicode b
    end.
Proof.
  pose proof (byte.unsigned_range b) as R. change (2 ^ 8) with 256 in R.
  unfold table_code_point, tabulated, u32.
  destruct t; cbn [table_entries table_base];
    [change (Z.of_nat (length cp1252_to_unicode)) with 32
    |change (Z.of_nat (length iso8859_15_to_unicode)) with 27];
    change (2 ^ 32) with 4294967296.
  - destruct (Z.lt_ge_cases (byte.unsigned b) 128) as [L | G].
    + replace ((byte.unsigned b - 128) mod 4294967296)
        with (byte.unsigned b - 128 + 4294967296)
        by (apply (Z.mod_unique_pos _ _ (-1)); lia).
      destruct (Z.ltb_spec (byte.unsigned b - 128 + 4294967296) 32); [lia|].
      destruct (Z.leb_spec 128 (byte.unsigned b)); [lia | reflexivity].
    + rewrite Z.mod_small by lia.
      destruct (Z.leb_spec 128 (byte.unsigned b)); [|lia]. cbn [andb].
      destruct (Z.ltb_spec (byte.unsigned b - 128) 32);
        destruct (Z.leb_spec (byte.unsigned b) 159); try lia; reflexivity.
  - destruct (Z.lt_ge_cases (byte.unsigned b) 164) as [L | G].
    + replace ((byte.unsigned b - 164) mod 4294967296)
        with (byte.unsigned b - 164 + 4294967296)
        by (apply (Z.mod_unique_pos _ _ (-1)); lia).
      destruct (Z.ltb_spec (byte.unsigned b - 164 + 4294967296) 27); [lia|].
      destruct (Z.leb_spec 164 (byte.unsigned b)); [lia | reflexivity].
    + rewrite Z.mod_small by lia.
      destruct (Z.leb_spec 164 (byte.unsigned b)); [|lia]. cbn [andb].
      destruct (Z.ltb_spec (byte.unsigned b - 164) 27);
        destruct (Z.leb_spec (byte.unsigned b) 190); try lia; reflexivity.
Qed.

Lemma table_entries_good (t : table) :
  Forall (fun ch => Utf8.in_code_space ch /\ Utf8.is_surrogate ch = false)
    (table_entries t).
Proof.
  destruct t; cbn [table_entries]; unfold cp1252_to_unicode, iso8859_15_to_unicode;
    repeat constructor; unfold Utf8.in_code_space; lia.
Qed.

Lemma table_code_point_good (t : table) (b : byte) :
  Utf8.in_code_space (table_code_point (table_entries t) (table_base t) b)
  /\ Utf8.is_surrogate (table_code_point (table_entries t) (table_base t) b) = false.
Proof.
  pose proof (byte.unsigned_range b) as R. change (2 ^ 8) with 256 in R.
  unfold table_code_point.
  destruct (Z.ltb_spec (u32 (byte.unsigned b - table_base t))
              (Z.of_nat (length (table_entries t)))) as [L | G].
  - pose proof (table_entries_good t) as F.
    rewrite Forall_forall in F. apply F. apply nth_In.
    unfold u32 in *.
    pose proof (Z.mod_pos_bound (byte.unsigned b - table_base t) (2 ^ 32)).
    lia.
  - unfold Utf8.in_code_space, Utf8.is_surrogate. split; [lia|].
    destruct (Z.leb_spec 0xd800 (byte.unsigned b)); [lia | reflexivity].
Qed.

(** ** Texts that start with two given bytes *)

Lemma startswith_app (text pfx tail : list byte) :
  (length pfx <= length text)%nat ->
  startswith (text ++ tail) pfx = startswith text pfx.
Proof.
  assert (N : forall t, startswith t [] = true) by (intros []; reflexivity).
  revert text. induction pfx as [|x pfx IH]; intros text H.
  - rewrite !N. reflexivity.
  - destruct text as [|y text]; [cbn in H; lia|].
    cbn [app startswith]. rewrite IH by (cbn in H; lia). reflexivity.
Qed.

Lemma utf16_text_end_cons2 (a b : byte) (rest : list byte) :
  utf16_text_end (a :: b :: rest) = Datatypes.S (Datatypes.S (utf16_text_end rest)).
Proof.
  unfold utf16_text_end. cbn [length].
  rewrite Nat.odd_succ, Nat.even_succ.
  destruct (Nat.odd (length rest)) eqn:E; [|reflexivity].
  destruct (length rest); [discriminate E | lia].
Qed.

Lemma span_cons2_skip (a b : byte) (rest : list byte) :
  span 2 (utf16_text_end (a :: b :: rest)) (a :: b :: rest)
  = span 0 (utf16_text_end rest) rest.
Proof. rewrite utf16_text_end_cons2. reflexivity. Qed.

Lemma span_cons2_keep (a b : byte) (rest : list byte) :
  span 0 (utf16_text_end (a :: b :: rest)) (a :: b :: rest)
  = a :: b :: span 0 (utf16_text_end rest) rest.
Proof. rewrite utf16_text_end_cons2. reflexivity. Qed.

Lemma span_odd_tail (i : nat) (text : list byte) (b : byte) :
  Nat.even (length text) = true ->
  span i (utf16_text_end (text ++ [b])) (text ++ [b])
  = span i (utf16_text_end text) text.
Proof.
  intros He. unfold span, utf16_text_end.
  rewrite length_app. cbn [length].
  replace (length text + 1)%nat with (Datatypes.S (length text)) by lia.
  rewrite Nat.odd_succ, He.
  unfold Nat.odd. rewrite He. cbn [negb].
  replace (Datatypes.S (length text) - 1)%nat with (length text) by lia.
  rewrite firstn_app, Nat.sub_diag. cbn [firstn]. rewrite app_nil_r. reflexivity.
Qed.

(** ** The external conversion loop *)

Lemma iconv_loop_characters (env : iconv_env) :
  iconv_writes_characters env ->
  forall fuel conv input acc tmp,
    Forall (fun ch => Utf8.in_code_space ch /\ Utf8.is_surrogate ch = false) acc ->
    iconv_loop env fuel conv input (utf8_of acc) = Some tmp ->
    exists scalars,
      Forall (fun ch => Utf8.in_code_space ch /\ Utf8.is_surrogate ch = false) scalars
      /\ tmp = utf8_of scalars.
Proof.
  intros W. induction fuel as [|fuel IH]; intros conv input acc tmp Hacc E.
  - destruct input; [|discriminate E]. injection E as <-. exists acc. auto.
  - destruct input as [|x input]; [injection E as <-; exists acc; auto|].
    cbn [iconv_loop] in E.
    destruct (ic_failed (iconv env conv (x :: input) sizeof_buf)
              && negb (ic_e2big (iconv env conv (x :: input) sizeof_buf))).
    + injection E as <-. exists acc. auto.
    + destruct (W conv (x :: input) sizeof_buf) as (scs & F & O).
      rewrite O in E.
      replace (utf8_of acc ++ utf8_of scs) with (utf8_of (acc ++ scs)) in E
        by (unfold utf8_of; apply flat_map_app).
      apply IH in E; [exact E|].
      apply Forall_app. auto.
Qed.

(** ** Labels are read without regard to case *)

Lemma tolower_inv (a c : ascii) : tolower a = c -> a = c \/ a = toupper c.
Proof.
  intros <-.
  destruct a as [b0 b1 b2 b3 b4 b5 b6 b7].
  destruct b0, b1, b2, b3, b4, b5, b6, b7;
    first [left; reflexivity | right; reflexivity].
Qed.

Lemma tolower_zero (c : ascii) : tolower c = Ascii.zero -> c = Ascii.zero.
Proof. intros H. apply tolower_inv in H. destruct H as [H | H]; exact H. Qed.

Lemma code_inj (a b : ascii) : code a = code b -> a = b.
Proof.
  unfold code. intros H. apply N2Z.inj in H.
  rewrite <- (ascii_N_embedding a), <- (ascii_N_embedding b), H. reflexivity.
Qed.

Lemma code_zero (c : ascii) : code c = 0 -> c = Ascii.zero.
Proof. intros H. apply code_inj. exact H. Qed.

Lemma compare_n_lower (n : nat) :
  forall a b : string,
    nul_free a = true -> nul_free b = true ->
    (String.length a < n)%nat -> (String.length b < n)%nat ->
    (compare_n tolower n a b = 0 <-> lower a = lower b).
Proof.
  induction n as [|n IH]; intros a b Na Nb La Lb; [lia|].
  destruct a as [|c1 r1], b as [|c2 r2]; cbn [compare_n lower].
  - tauto.
  - split; [|discriminate]. intros H.
    assert (Z : code (tolower c2) = 0) by lia.
    apply code_zero, tolower_zero in Z. subst c2. discriminate Nb.
  - split; [|discriminate]. intros H.
    apply code_zero, tolower_zero in H. subst c1. discriminate Na.
  - cbn [nul_free] in Na, Nb. apply andb_true_iff in Na, Nb.
    cbn [String.length] in La, Lb.
    destruct (Z.eqb_spec (code (tolower c1) - code (tolower c2)) 0) as [E | E].
    + assert (E' : tolower c1 = tolower c2) by (apply code_inj; lia).
      rewrite IH by (try apply Na; try apply Nb; lia).
      rewrite E'. split; [intros ->; reflexivity | intros H; injection H; auto].
    + split; [intros H; contradiction|].
      intros H. injection H as H _. rewrite H in E. lia.
Qed.

Lemma strcasecmp_lower (a b : string) :
  nul_free a = true -> nul_free b = true ->
  (strcasecmp a b = 0 <-> lower a = lower b).
Proof.
  intros Na Nb. unfold strcasecmp, compare_all.
  apply compare_n_lower; [exact Na | exact Nb | lia | lia].
Qed.

Lemma c_str_nul_free (s : string) : nul_free (c_str s) = true.
Proof.
  induction s as [|c r IH]; [reflexivity|].
  cbn [c_str]. destruct (Ascii.eqb c Ascii.zero) eqn:E; [reflexivity|].
  cbn [nul_free]. rewrite E, IH. reflexivity.
Qed.

Lemma c_str_id (s : string) : nul_free s = true -> c_str s = s.
Proof.
  induction s as [|c r IH]; [reflexivity|].
  cbn [nul_free c_str]. intros H. apply andb_true_iff in H. destruct H as [H1 H2].
  destruct (Ascii.eqb c Ascii.zero); [discriminate H1|].
  rewrite IH by exact H2. reflexivity.
Qed.

Lemma c_str_full (s : string) :
  String.length (c_str s) = String.length s -> c_str s = s.
Proof.
  induction s as [|c r IH]; [reflexivity|].
  cbn [c_str]. destruct (Ascii.eqb c Ascii.zero); [discriminate|].
  cbn [String.length]. intros H. rewrite IH by lia. reflexivity.
Qed.

Lemma lower_length (s : string) : String.length (lower s) = String.length s.
Proof. induction s as [|c r IH]; [reflexivity|]. cbn. rewrite IH. reflexivity. Qed.

Lemma lower_nul_free (s : string) : nul_free (lower s) = nul_free s.
Proof.
  induction s as [|c r IH]; [reflexivity|].
  cbn [lower nul_free]. rewrite IH. f_equal. f_equal.
  destruct (Ascii.eqb_spec c Ascii.zero) as [-> | N]; [reflexivity|].
  destruct (Ascii.eqb_spec (tolower c) Ascii.zero) as [Z | _]; [|reflexivity].
  apply tolower_zero in Z. contradiction.
Qed.

(** The test of a label against a name in lower case (lines 42-47). *)
Lemma label_is_lower (charset lit : string) :
  lower lit = lit -> nul_free lit = true ->
  ((String.length charset =? String.length lit)%nat
   && (strcasecmp (c_str charset) lit =? 0) = true
   <-> lower charset = lit).
Proof.
  intros Ll Nl. rewrite andb_true_iff, Nat.eqb_eq, Z.eqb_eq.
  rewrite (strcasecmp_lower _ _ (c_str_nul_free charset) Nl), Ll.
  split.
  - intros [Hlen H].
    assert (F : c_str charset = charset).
    { apply c_str_full. rewrite <- (lower_length (c_str charset)), H. auto. }
    rewrite <- F. exact H.
  - intros H.
    assert (N : nul_free charset = true)
      by (rewrite <- lower_nul_free, H; exact Nl).
    rewrite c_str_id by exact N.
    split; [rewrite <- H; symmetry; apply lower_length | exact H].
Qed.

Lemma already_utf8_lower (charset : string) :
  already_utf8 charset = true
  <-> (lower charset = "utf-8" \/ lower charset = "utf8"
       \/ lower charset = "us-ascii" \/ charset = "").
Proof.
  unfold already_utf8. rewrite !orb_true_iff.
  rewrite (label_is_lower charset "utf-8") by reflexivity.
  rewrite (label_is_lower charset "utf8") by reflexivity.
  rewrite (label_is_lower charset "us-ascii") by reflexivity.
  rewrite Nat.eqb_eq.
  assert (E : String.length charset = 0%nat <-> charset = "")
    by (destruct charset; split; (reflexivity || discriminate)).
  rewrite E. tauto.
Qed.

Lemma lower_case_variation (t : string) :
  forall s, lower s = t -> In s (case_variations t).
Proof.
  induction t as [|c r IH]; intros s H.
  - destruct s; [left; reflexivity | discriminate H].
  - destruct s as [|a s']; [discriminate H|].
    cbn [lower] in H. injection H as Ha Hs.
    cbn [case_variations]. apply in_flat_map.
    exists s'. split; [apply IH; exact Hs|].
    apply tolower_inv in Ha. destruct Ha as [-> | ->]; [left | right; left]; reflexivity.
Qed.

(** A property of all case variations of a name holds of every label
    that is the name up to case. *)
Lemma by_case_variation (P : string -> bool) (t s : string) :
  forallb P (case_variations t) = true -> lower s = t -> P s = true.
Proof.
  intros F H. rewrite forallb_forall in F. apply F.
  apply lower_case_variation. exact H.
Qed.

(** * The properties *)

(** ** Byte order *)

Lemma utf16_decode_defined (big_endian : bool) (text : list byte) :
  exists scalars,
    utf16_scalars big_endian (span 0 (utf16_text_end text) text) = Some scalars
    /\ Forall Utf8.in_code_space scalars
    /\ utf16_decode big_endian text = Some (utf8_of scalars).
Proof.
  destruct (utf16_loop_result big_endian (span 0 (utf16_text_end text) text))
    as (scs & s & E & F & L & _ & P).
  { apply span_even. left. reflexivity. }
  exists scs. split; [exact E|]. split; [exact F|].
  unfold utf16_decode. rewrite L, P. reflexivity.
Qed.

Lemma convert_utf16_at (env : iconv_env) (fuel : nat) (text : list byte)
    (charset : string) (output : list byte) (e : endianness)
    (big_endian : bool) (i : nat) :
  dispatch charset = Utf16 e -> (2 <= length text)%nat ->
  byte_order_of e text = (big_endian, i) ->
  convert_to_utf8_ env fuel text charset output =
    converted (utf16_loop encode big_endian (span i (utf16_text_end text) text)
                 staging_init).
Proof.
  intros D L B. unfold convert_to_utf8_.
  rewrite (convert_utf16 env encode fuel text charset output e D L), B.
  reflexivity.
Qed.

Lemma converted_decode (big_endian : bool) (text : list byte) :
  converted (utf16_loop encode big_endian (span 0 (utf16_text_end text) text)
               staging_init)
  = option_map (fun bytes => (true, bytes)) (utf16_decode big_endian text).
Proof.
  unfold converted, utf16_decode.
  destruct (utf16_loop encode big_endian _ staging_init); reflexivity.
Qed.



(** C10. A label that names the byte order never has a byte-order mark
    removed: under a little-endian label a text that starts FF FE, and
    under a big-endian label a text that starts FE FF, is converted to the
    three bytes EF BB BF of U+FEFF followed by the conversion of the rest.
    The labels "utf-16le", "ucs-2le", "utf-16be" and "ucs-2be" name the
    byte order, in any mix of upper and lower case. *)
Theorem utf16_explicit_order_keeps_bom :
  (forall (env : iconv_env) (fuel : nat) (charset : string) (output rest : list byte),
      (dispatch charset = Utf16 LittleEndian ->
       exists bytes,
         utf16_decode false rest = Some bytes
         /\ convert_to_utf8_ env fuel (Byte.xff :: Byte.xfe :: rest) charset output
            = Some (true, [Byte.xef; Byte.xbb; Byte.xbf] ++ bytes))
      /\ (dispatch charset = Utf16 BigEndian ->
          exists bytes,
            utf16_decode true rest = Some bytes
            /\ convert_to_utf8_ env fuel (Byte.xfe :: Byte.xff :: rest) charset output
               = Some (true, [Byte.xef; Byte.xbb; Byte.xbf] ++ bytes)))
  /\ (forall charset : string,
        (lower charset = "utf-16le" \/ lower charset = "ucs-2le" ->
         dispatch charset = Utf16 LittleEndian)
        /\ (lower charset = "utf-16be" \/ lower charset = "ucs-2be" ->
            dispatch charset = Utf16 BigEndian)).
Proof.
  assert (K : forall (big_endian : bool) (a b : byte) (rest : list byte),
             unit16 big_endian a b = 0xfeff ->
             exists bytes,
               utf16_decode big_endian rest = Some bytes
               /\ converted (utf16_loop encode big_endian
                               (span 0 (utf16_text_end (a :: b :: rest)) (a :: b :: rest))
                               staging_init)
                  = Some (true, [Byte.xef; Byte.xbb; Byte.xbf] ++ bytes)).
  { intros big_endian a b rest U.
    destruct (utf16_decode_defined big_endian rest) as (scs & E & _ & Dec).
    exists (utf8_of scs). split; [exact Dec|].
    destruct (utf16_loop_result big_endian
                (span 0 (utf16_text_end (a :: b :: rest)) (a :: b :: rest)))
      as (scs' & s & E' & _ & L & _ & P).
    { apply span_even. left. reflexivity. }
    rewrite L. cbn [converted]. rewrite P.
    rewrite span_cons2_keep in E'.
    unfold utf16_scalars in E'.
    rewrite utf16_step_plain in E' by (rewrite U; unfold high_surrogate; lia).
    unfold collect at 1 in E'. cbn [app] in E'.
    rewrite (utf16_collect_acc big_endian _ _ [_] (le_n _)) in E'.
    unfold utf16_scalars in E. rewrite E in E'. cbn [option_map] in E'.
    injection E' as <-. rewrite U. reflexivity. }
  split.
  - intros env fuel charset output rest. split; intros D.
    + rewrite (convert_utf16_at env fuel _ charset output _ false 0 D)
        by (try reflexivity; cbn; lia).
      apply K. reflexivity.
    + rewrite (convert_utf16_at env fuel _ charset output _ true 0 D)
        by (try reflexivity; cbn; lia).
      apply K. reflexivity.
  - intros charset. split; intros [H | H].
    + apply (by_case_variation
               (fun s => match dispatch s with Utf16 LittleEndian => true | _ => false end)
               "utf-16le") in H; [|vm_compute; reflexivity].
      destruct (dispatch charset) as [|[]| |]; try discriminate H. reflexivity.
    + apply (by_case_variation
               (fun s => match dispatch s with Utf16 LittleEndian => true | _ => false end)
               "ucs-2le") in H; [|vm_compute; reflexivity].
      destruct (dispatch charset) as [|[]| |]; try discriminate H. reflexivity.
    + apply (by_case_variation
               (fun s => match dispatch s with Utf16 BigEndian => true | _ => false end)
               "utf-16be") in H; [|vm_compute; reflexivity].
      destruct (dispatch charset) as [|[]| |]; try discriminate H. reflexivity.
    + apply (by_case_variation
               (fun s => match dispatch s with Utf16 BigEndian => true | _ => false end)
               "ucs-2be") in H; [|vm_compute; reflexivity].
      destruct (dispatch charset) as [|[]| |]; try discriminate H. reflexivity.
Qed.

Lemma utf16_explicit_order_keeps_bom_witness :
  lower "Utf-16LE" = "utf-16le"
  /\ dispatch "Utf-16LE" = Utf16 LittleEndian
  /\ exists bytes,
       utf16_decode false [Byte.x41; Byte.x00] = Some bytes
       /\ convert_to_utf8_ no_iconv 0 [Byte.xff; Byte.xfe; Byte.x41; Byte.x00] "Utf-16LE" []
          = Some (true, [Byte.xef; Byte.xbb; Byte.xbf] ++ bytes).
Proof.
  assert (L : lower "Utf-16LE" = "utf-16le") by reflexivity.
  assert (D : dispatch "Utf-16LE" = Utf16 LittleEndian)
    by exact (proj1 (proj2 utf16_explicit_order_keeps_bom "Utf-16LE") (or_introl L)).
  split; [exact L|]. split; [exact D|].
  exact (proj1 (proj1 utf16_explicit_order_keeps_bom no_iconv 0%nat "Utf-16LE" []
                  [Byte.x41; Byte.x00]) D).
Defined.

(** ** Iterations of the UTF-16 loop within a text *)

Lemma consumed_whole_even (big_endian : bool) (n : nat) :
  forall l, (length l <= n)%nat -> consumed_whole big_endian l = true ->
            Nat.even (length l) = true.
Proof.
  induction n as [|n IH]; intros l Hl H.
  - destruct l; [reflexivity | cbn in Hl; lia].
  - destruct l as [|c [|c2 rest]]; [reflexivity | discriminate H |].
    cbn [consumed_whole] in H. cbn [length] in Hl.
    revert H.
    destruct (Z.shiftr (unit16 big_endian c c2) 10 =? Z.shiftr 0xd800 10); intros H.
    + destruct rest as [|d [|d2 rest']]; [discriminate H | discriminate H |].
      cbn [length] in Hl. cbn [length Nat.even]. apply IH; [lia | exact H].
    + cbn [length Nat.even]. apply IH; [lia | exact H].
Qed.

(** The loop on a text whose front part is made of complete iterations
    is the loop on the front part followed by the loop on the rest. *)
Lemma utf16_loop_app {S : Type} (emit : Z -> S -> option S)
    (big_endian : bool) (n : nat) :
  forall pre rest s, (length pre <= n)%nat ->
    consumed_whole big_endian pre = true ->
    utf16_loop emit big_endian (pre ++ rest) s
    = match utf16_loop emit big_endian pre s with
      | Some s' => utf16_loop emit big_endian rest s'
      | None => None
      end.
Proof.
  induction n as [|n IH]; intros pre rest s Hl H.
  - destruct pre; [reflexivity | cbn in Hl; lia].
  - destruct pre as [|c [|c2 pre']]; [reflexivity | discriminate H |].
    cbn [consumed_whole] in H. cbn [length] in Hl.
    cbn [app utf16_loop]. revert H.
    destruct (Z.shiftr (unit16 big_endian c c2) 10 =? Z.shiftr 0xd800 10); intros H.
    + destruct pre' as [|d [|d2 pre'']]; [discriminate H | discriminate H |].
      cbn [length] in Hl. cbn [app].
      destruct (emit _ s) as [s'|]; [|reflexivity].
      apply IH; [lia | exact H].
    + destruct (emit _ s) as [s'|]; [|reflexivity].
      apply IH; [lia | exact H].
Qed.

Lemma utf16_scalars_app (big_endian : bool) (pre rest : list byte) :
  consumed_whole big_endian pre = true ->
  utf16_scalars big_endian (pre ++ rest)
  = match utf16_scalars big_endian pre, utf16_scalars big_endian rest with
    | Some a, Some b => Some (a ++ b)
    | _, _ => None
    end.
Proof.
  intros H. unfold utf16_scalars.
  rewrite (utf16_loop_app collect big_endian (length pre) pre rest [] (le_n _) H).
  destruct (utf16_loop collect big_endian pre []) as [a|]; [|reflexivity].
  rewrite (utf16_collect_acc big_endian (length rest) rest a (le_n _)).
  destruct (utf16_loop collect big_endian rest []); reflexivity.
Qed.

(** The code points of a text that starts with a high surrogate. *)
Lemma utf16_scalars_pair (big_endian : bool) (c c2 d d2 : byte) (l : list byte) :
  high_surrogate (unit16 big_endian c c2) ->
  low_surrogate (unit16 big_endian d d2) ->
  utf16_scalars big_endian (c :: c2 :: d :: d2 :: l)
  = option_map (cons (0x10000 + Z.shiftl (Z.land (unit16 big_endian c c2) 0x3ff) 10
                      + Z.land (unit16 big_endian d d2) 0x3ff))
      (utf16_scalars big_endian l).
Proof.
  intros Hu Hv. unfold utf16_scalars.
  rewrite utf16_step_pair by assumption.
  unfold collect at 1. cbn [app].
  rewrite (utf16_collect_acc big_endian (length l) l [_] (le_n _)).
  destruct (utf16_loop collect big_endian l []); reflexivity.
Qed.

Lemma utf16_scalars_unpaired (big_endian : bool) (c c2 d d2 : byte) (l : list byte) :
  high_surrogate (unit16 big_endian c c2) ->
  ~ low_surrogate (unit16 big_endian d d2) ->
  utf16_scalars big_endian (c :: c2 :: d :: d2 :: l)
  = option_map (cons (unit16 big_endian d d2)) (utf16_scalars big_endian l).
Proof.
  intros Hu Hv. unfold utf16_scalars.
  rewrite utf16_step_unpaired by assumption.
  unfold collect at 1. cbn [app].
  rewrite (utf16_collect_acc big_endian (length l) l [_] (le_n _)).
  destruct (utf16_loop collect big_endian l []); reflexivity.
Qed.

(** The decoder in terms of the code points of the loop. *)
Lemma utf16_decode_scalars (big_endian : bool) (text : list byte) :
  utf16_decode big_endian text
  = option_map utf8_of (utf16_scalars big_endian (span 0 (utf16_text_end text) text)).
Proof.
  destruct (utf16_decode_defined big_endian text) as (scs & E & _ & D).
  rewrite E, D. reflexivity.
Qed.

Lemma span_app_even (pre rest : list byte) :
  Nat.even (length pre) = true ->
  span 0 (utf16_text_end (pre ++ rest)) (pre ++ rest)
  = pre ++ span 0 (utf16_text_end rest) rest.
Proof.
  intros E. unfold span, utf16_text_end. cbn [skipn].
  rewrite length_app, Nat.odd_add.
  assert (O : Nat.odd (length pre) = false)
    by (unfold Nat.odd; rewrite E; reflexivity).
  rewrite O. cbn [xorb].
  destruct (Nat.odd (length rest)) eqn:R.
  - assert (1 <= length rest)%nat by (destruct (length rest); [discriminate R | lia]).
    replace (length pre + length rest - 1)%nat
      with (length pre + (length rest - 1))%nat by lia.
    apply firstn_app_2.
  - apply firstn_app_2.
Qed.

Lemma utf16_decode_app (big_endian : bool) (pre rest : list byte) :
  consumed_whole big_endian pre = true ->
  exists front back,
    utf16_decode big_endian pre = Some front
    /\ utf16_decode big_endian rest = Some back
    /\ utf16_decode big_endian (pre ++ rest) = Some (front ++ back).
Proof.
  intros H.
  pose proof (consumed_whole_even big_endian (length pre) pre (le_n _) H) as E.
  destruct (utf16_decode_defined big_endian pre) as (a & Ea & _ & Da).
  destruct (utf16_decode_defined big_endian rest) as (b & Eb & _ & Db).
  exists (utf8_of a), (utf8_of b). split; [exact Da|]. split; [exact Db|].
  pose proof (span_app_even pre [] E) as P.
  rewrite app_nil_r in P. change (span 0 (utf16_text_end []) []) with (@nil byte) in P.
  rewrite app_nil_r in P. rewrite P in Ea.
  rewrite utf16_decode_scalars, span_app_even by exact E.
  rewrite utf16_scalars_app by exact H.
  rewrite Ea, Eb. cbn [option_map]. unfold utf8_of. rewrite flat_map_app. reflexivity.
Qed.

Lemma utf16_decode_pair (big_endian : bool) (c c2 d d2 : byte) (post : list byte) :
  high_surrogate (unit16 big_endian c c2) ->
  low_surrogate (unit16 big_endian d d2) ->
  utf16_decode big_endian (c :: c2 :: d :: d2 :: post)
  = option_map (app (Unicode.to_utf8
                       (0x10000 + Z.shiftl (Z.land (unit16 big_endian c c2) 0x3ff) 10
                        + Z.land (unit16 big_endian d d2) 0x3ff)))
      (utf16_decode big_endian post).
Proof.
  intros Hu Hv.
  rewrite !utf16_decode_scalars, !span_cons2_keep.
  rewrite utf16_scalars_pair by assumption.
  destruct (utf16_scalars big_endian _); reflexivity.
Qed.

Lemma utf16_decode_unpaired (big_endian : bool) (c c2 d d2 : byte) (post : list byte) :
  high_surrogate (unit16 big_endian c c2) ->
  ~ low_surrogate (unit16 big_endian d d2) ->
  utf16_decode big_endian (c :: c2 :: d :: d2 :: post)
  = option_map (app (Unicode.to_utf8 (unit16 big_endian d d2)))
      (utf16_decode big_endian post).
Proof.
  intros Hu Hv.
  rewrite !utf16_decode_scalars, !span_cons2_keep.
  rewrite utf16_scalars_unpaired by assumption.
  destruct (utf16_scalars big_endian _); reflexivity.
Qed.

(** A high surrogate that an iteration reads first, with at most one
    byte behind it, leaves nothing in the output. *)
Lemma utf16_decode_last_high (big_endian : bool) (c c2 : byte) (tail : list byte) :
  high_surrogate (unit16 big_endian c c2) ->
  (length tail <= 1)%nat ->
  utf16_decode big_endian (c :: c2 :: tail) = Some [].
Proof.
  intros Hu Ht.
  assert (E : span 0 (utf16_text_end (c :: c2 :: tail)) (c :: c2 :: tail) = [c; c2]).
  { destruct tail as [|b [|b' tail]]; [reflexivity | reflexivity | cbn in Ht; lia]. }
  unfold utf16_decode. rewrite E.
  rewrite utf16_step_last_high by exact Hu. reflexivity.
Qed.

(** An iteration starts behind every unit that is not a high surrogate. *)
Lemma consumed_whole_after_plain (big_endian : bool) (n : nat) :
  forall (pre : list byte) (a a2 : byte),
    (length pre <= n)%nat -> Nat.even (length pre) = true ->
    ~ high_surrogate (unit16 big_endian a a2) ->
    consumed_whole big_endian (pre ++ [a; a2]) = true.
Proof.
  induction n as [|n IH]; intros pre a a2 Hl He Hu.
  - destruct pre; [|cbn in Hl; lia].
    cbn [app consumed_whole].
    destruct (Z.shiftr (unit16 big_endian a a2) 10 =? Z.shiftr 0xd800 10) eqn:E;
      [apply high_test in E; contradiction | reflexivity].
  - destruct pre as [|c [|c2 pre']].
    + cbn [app consumed_whole].
      destruct (Z.shiftr (unit16 big_endian a a2) 10 =? Z.shiftr 0xd800 10) eqn:E;
        [apply high_test in E; contradiction | reflexivity].
    + discriminate He.
    + cbn [length] in Hl, He. cbn [Nat.even] in He.
      cbn [app consumed_whole].
      destruct (Z.shiftr (unit16 big_endian c c2) 10 =? Z.shiftr 0xd800 10).
      * destruct pre' as [|d [|d2 pre'']]; [reflexivity | discriminate He |].
        cbn [length] in Hl, He. cbn [Nat.even] in He. cbn [app].
        apply IH; [lia | exact He | exact Hu].
      * apply IH; [lia | exact He | exact Hu].
Qed.

(** Under a label that names the byte order the conversion of a text of
    two bytes or more is the decoder on the whole text. *)
Lemma convert_named_order (env : iconv_env) (fuel : nat) (text : list byte)
    (charset : string) (output : list byte) (e : endianness) (big_endian : bool) :
  dispatch charset = Utf16 e -> named_order e = Some big_endian ->
  (2 <= length text)%nat ->
  convert_to_utf8_ env fuel text charset output
  = option_map (fun bytes => (true, bytes)) (utf16_decode big_endian text).
Proof.
  intros D N L.
  rewrite (convert_utf16_at env fuel text charset output e big_endian 0 D L).
  - apply converted_decode.
  - destruct e; cbn in N; inversion N; reflexivity.
Qed.

(** ** Surrogate pairs *)

(** C2, as it is stated.  Under "utf-16be" the text D8 00 D8 01 DC 00 has
    the unit D801 of the high-surrogate range followed by the unit DC00
    of the low-surrogate range, but the value U+10400 that the formula
    gives for the two is not among the code points handed to the encoder:
    the iteration that reads D800 first takes D801 as its second unit,
    and the next iteration starts at DC00.  D801 and DC00 are encoded one
    by one. *)
Lemma high_after_high_not_combined :
  high_surrogate (unit16 true Byte.xd8 Byte.x01)
  /\ low_surrogate (unit16 true Byte.xdc Byte.x00)
  /\ ~ (forall scalars,
          utf16_scalars true
            [Byte.xd8; Byte.x00; Byte.xd8; Byte.x01; Byte.xdc; Byte.x00] = Some scalars ->
          In (0x10000 + Z.shiftl (Z.land (unit16 true Byte.xd8 Byte.x01) 0x3ff) 10
              + Z.land (unit16 true Byte.xdc Byte.x00) 0x3ff) scalars)
  /\ convert_to_utf8_ no_iconv 0
       [Byte.xd8; Byte.x00; Byte.xd8; Byte.x01; Byte.xdc; Byte.x00] "utf-16be" []
     = Some (true, [Byte.xed; Byte.xa0; Byte.x81; Byte.xed; Byte.xb0; Byte.x80]).
Proof.
  split; [vm_compute; split; discriminate|].
  split; [vm_compute; split; discriminate|].
  split.
  - intros H.
    specialize (H [0xd801; 0xdc00] eq_refl).
    vm_compute in H.
    destruct H as [H | [H | H]]; [discriminate H | discriminate H | exact H].
  - vm_compute. reflexivity.
Qed.

(** C2, amended.  Let an iteration of the UTF-16 loop start at a unit [u]
    of the high-surrogate range 0xD800-0xDBFF (the bytes [pre] in front of
    [u] are stepped through in complete iterations; this is so when [u]
    is the first unit decoded and when the unit in front of [u] is not a
    high surrogate), and let the unit [v] behind [u] be in the
    low-surrogate range 0xDC00-0xDFFF.  Then, whatever the encoder step,
    the loop hands the code points of [pre] to the encoder, then the
    single value [0x10000 + ((u & 0x3FF) << 10) + (v & 0x3FF)], and goes
    on behind [v]; the output of the decoder is the output for [pre], the
    encoding of that value and the output for the rest, and so is the
    result of [convert_to_utf8_] under a label that names the byte order.
    For the label "utf-16be" the bytes D8 3D DE 00 are converted to
    F0 9F 98 80. *)
Theorem utf16_surrogate_pair_combined :
  (forall (S : Type) (emit : Z -> S -> option S) (big_endian : bool)
          (pre post : list byte) (c c2 d d2 : byte) (s : S),
      consumed_whole big_endian pre = true ->
      high_surrogate (unit16 big_endian c c2) ->
      low_surrogate (unit16 big_endian d d2) ->
      utf16_loop emit big_endian (pre ++ c :: c2 :: d :: d2 :: post) s =
        match utf16_loop emit big_endian pre s with
        | Some s1 =>
            match emit (0x10000
                        + Z.shiftl (Z.land (unit16 big_endian c c2) 0x3ff) 10
                        + Z.land (unit16 big_endian d d2) 0x3ff) s1 with
            | Some s2 => utf16_loop emit big_endian post s2
            | None => None
            end
        | None => None
        end)
  /\ (forall (big_endian : bool) (pre post : list byte) (c c2 d d2 : byte),
        consumed_whole big_endian pre = true ->
        high_surrogate (unit16 big_endian c c2) ->
        low_surrogate (unit16 big_endian d d2) ->
        exists front back,
          utf16_decode big_endian pre = Some front
          /\ utf16_decode big_endian post = Some back
          /\ utf16_decode big_endian (pre ++ c :: c2 :: d :: d2 :: post)
             = Some (front
                     ++ Unicode.to_utf8
                          (0x10000
                           + Z.shiftl (Z.land (unit16 big_endian c c2) 0x3ff) 10
                           + Z.land (unit16 big_endian d d2) 0x3ff)
                     ++ back)
          /\ (forall (env : iconv_env) (fuel : nat) (charset : string)
                     (output : list byte) (e : endianness),
                dispatch charset = Utf16 e -> named_order e = Some big_endian ->
                convert_to_utf8_ env fuel (pre ++ c :: c2 :: d :: d2 :: post)
                  charset output
                = Some (true,
                        front
                        ++ Unicode.to_utf8
                             (0x10000
                              + Z.shiftl (Z.land (unit16 big_endian c c2) 0x3ff) 10
                              + Z.land (unit16 big_endian d d2) 0x3ff)
                        ++ back)))
  /\ (forall (big_endian : bool) (pre : list byte) (a a2 : byte),
        consumed_whole big_endian [] = true
        /\ (Nat.even (length pre) = true ->
            ~ high_surrogate (unit16 big_endian a a2) ->
            consumed_whole big_endian (pre ++ [a; a2]) = true))
  /\ (forall (env : iconv_env) (fuel : nat) (output : list byte),
        convert_to_utf8_ env fuel [Byte.xd8; Byte.x3d; Byte.xde; Byte.x00]
          "utf-16be" output
        = Some (true, [Byte.xf0; Byte.x9f; Byte.x98; Byte.x80])).
Proof.
  split; [|split; [|split]].
  - intros S emit big_endian pre post c c2 d d2 s H Hu Hv.
    rewrite (utf16_loop_app emit big_endian (length pre) pre _ s (le_n _) H).
    destruct (utf16_loop emit big_endian pre s) as [s1|]; [|reflexivity].
    apply utf16_step_pair; assumption.
  - intros big_endian pre post c c2 d d2 H Hu Hv.
    destruct (utf16_decode_app big_endian pre (c :: c2 :: d :: d2 :: post) H)
      as (front & mid & Ef & Em & E).
    rewrite utf16_decode_pair in Em by assumption.
    destruct (utf16_decode big_endian post) as [back|] eqn:Eb; [|discriminate Em].
    cbn [option_map] in Em. inversion Em; subst mid.
    exists front, back.
    split; [exact Ef|]. split; [reflexivity|]. split; [exact E|].
    intros env fuel charset output e D N.
    rewrite (convert_named_order env fuel _ charset output e big_endian D N)
      by (rewrite length_app; cbn [length]; lia).
    rewrite E. reflexivity.
  - intros big_endian pre a a2. split; [reflexivity|].
    intros He Hu.
    exact (consumed_whole_after_plain big_endian (length pre) pre a a2 (le_n _) He Hu).
  - intros env fuel output. unfold convert_to_utf8_.
    rewrite (convert_utf16 env encode fuel _ _ output BigEndian)
      by (try reflexivity; cbn; lia).
    vm_compute. reflexivity.
Qed.

Lemma utf16_surrogate_pair_combined_witness :
  consumed_whole true [Byte.x00; Byte.x41] = true
  /\ high_surrogate (unit16 true Byte.xd8 Byte.x3d)
  /\ low_surrogate (unit16 true Byte.xde Byte.x00)
  /\ utf16_loop collect true
       ([Byte.x00; Byte.x41]
        ++ Byte.xd8 :: Byte.x3d :: Byte.xde :: Byte.x00 :: [Byte.x00; Byte.x42]) []
     = Some [0x41; 0x1f600; 0x42].
Proof.
  assert (H : consumed_whole true [Byte.x00; Byte.x41] = true) by reflexivity.
  assert (Hu : high_surrogate (unit16 true Byte.xd8 Byte.x3d))
    by (vm_compute; split; discriminate).
  assert (Hv : low_surrogate (unit16 true Byte.xde Byte.x00))
    by (vm_compute; split; discriminate).
  split; [exact H|]. split; [exact Hu|]. split; [exact Hv|].
  rewrite (proj1 utf16_surrogate_pair_combined (list Z) collect true
             [Byte.x00; Byte.x41] [Byte.x00; Byte.x42]
             Byte.xd8 Byte.x3d Byte.xde Byte.x00 [] H Hu Hv).
  reflexivity.
Defined.

(** C3, as it is stated.  Under "utf-16be" the text D8 00 D8 01 00 41 has
    the unit D801 of the high-surrogate range followed by the unit 0041,
    which is not a low surrogate; but D801 does contribute to the output:
    its three bytes ED A0 81 are there, and the text without D801 is
    converted to the byte 41 alone.  And in D8 00 D8 01 D8 02 the unit
    D801 is followed by D802, not a low surrogate, and D802 is not
    emitted: the output is that of D8 00 D8 01.  In both texts the
    iteration that reads D800 first takes D801 as its second unit. *)
Lemma high_after_high_is_encoded :
  high_surrogate (unit16 true Byte.xd8 Byte.x01)
  /\ ~ low_surrogate (unit16 true Byte.x00 Byte.x41)
  /\ ~ low_surrogate (unit16 true Byte.xd8 Byte.x02)
  /\ convert_to_utf8_ no_iconv 0
       [Byte.xd8; Byte.x00; Byte.xd8; Byte.x01; Byte.x00; Byte.x41] "utf-16be" []
     = Some (true, Unicode.to_utf8 (unit16 true Byte.xd8 Byte.x01) ++ [Byte.x41])
  /\ convert_to_utf8_ no_iconv 0
       [Byte.xd8; Byte.x00; Byte.x00; Byte.x41] "utf-16be" []
     = Some (true, [Byte.x41])
  /\ Unicode.to_utf8 (unit16 true Byte.xd8 Byte.x01) = [Byte.xed; Byte.xa0; Byte.x81]
  /\ convert_to_utf8_ no_iconv 0
       [Byte.xd8; Byte.x00; Byte.xd8; Byte.x01; Byte.xd8; Byte.x02] "utf-16be" []
     = Some (true, Unicode.to_utf8 (unit16 true Byte.xd8 Byte.x01))
  /\ ~ (forall scalars,
          utf16_scalars true
            [Byte.xd8; Byte.x00; Byte.xd8; Byte.x01; Byte.xd8; Byte.x02] = Some scalars ->
          In (unit16 true Byte.xd8 Byte.x02) scalars
          /\ ~ In (unit16 true Byte.xd8 Byte.x01) scalars).
Proof.
  split; [vm_compute; split; discriminate|].
  split; [vm_compute; intros [H _]; apply H; reflexivity|].
  split; [vm_compute; intros [H _]; apply H; reflexivity|].
  split; [vm_compute; reflexivity|].
  split; [vm_compute; reflexivity|].
  split; [vm_compute; reflexivity|].
  split; [vm_compute; reflexivity|].
  intros H. specialize (H [0xd801] eq_refl).
  destruct H as [_ H]. apply H. left. reflexivity.
Qed.

(** C3, amended.  Let an iteration of the UTF-16 loop start at a unit [u]
    of the high-surrogate range (the bytes [pre] in front of [u] are
    stepped through in complete iterations; this is so when [u] is the
    first unit decoded and when the unit in front of [u] is not a high
    surrogate), and let the unit [v] behind [u] be outside the
    low-surrogate range 0xDC00-0xDFFF.  Then nothing is combined:
    whatever the encoder step, the loop hands the code points of [pre] to
    the encoder, then [v] as a value of its own, and goes on behind [v];
    the output of the decoder is the output for [pre], the encoding of
    [v] and the output for the rest, with nothing for [u], and so is the
    result of [convert_to_utf8_] under a label that names the byte order.
    The value [v] can itself be a surrogate: for "utf-16be" the bytes
    D8 00 D8 01 are converted to the three bytes ED A0 81 of U+D801. *)
Theorem utf16_high_without_low :
  (forall (S : Type) (emit : Z -> S -> option S) (big_endian : bool)
          (pre post : list byte) (c c2 d d2 : byte) (s : S),
      consumed_whole big_endian pre = true ->
      high_surrogate (unit16 big_endian c c2) ->
      ~ low_surrogate (unit16 big_endian d d2) ->
      utf16_loop emit big_endian (pre ++ c :: c2 :: d :: d2 :: post) s =
        match utf16_loop emit big_endian pre s with
        | Some s1 =>
            match emit (unit16 big_endian d d2) s1 with
            | Some s2 => utf16_loop emit big_endian post s2
            | None => None
            end
        | None => None
        end)
  /\ (forall (big_endian : bool) (pre post : list byte) (c c2 d d2 : byte),
        consumed_whole big_endian pre = true ->
        high_surrogate (unit16 big_endian c c2) ->
        ~ low_surrogate (unit16 big_endian d d2) ->
        exists front back,
          utf16_decode big_endian pre = Some front
          /\ utf16_decode big_endian post = Some back
          /\ utf16_decode big_endian (pre ++ c :: c2 :: d :: d2 :: post)
             = Some (front ++ Unicode.to_utf8 (unit16 big_endian d d2) ++ back)
          /\ (forall (env : iconv_env) (fuel : nat) (charset : string)
                     (output : list byte) (e : endianness),
                dispatch charset = Utf16 e -> named_order e = Some big_endian ->
                convert_to_utf8_ env fuel (pre ++ c :: c2 :: d :: d2 :: post)
                  charset output
                = Some (true,
                        front ++ Unicode.to_utf8 (unit16 big_endian d d2) ++ back)))
  /\ (forall (big_endian : bool) (pre : list byte) (a a2 : byte),
        consumed_whole big_endian [] = true
        /\ (Nat.even (length pre) = true ->
            ~ high_surrogate (unit16 big_endian a a2) ->
            consumed_whole big_endian (pre ++ [a; a2]) = true))
  /\ (forall (env : iconv_env) (fuel : nat) (output : list byte),
        convert_to_utf8_ env fuel [Byte.xd8; Byte.x00; Byte.xd8; Byte.x01]
          "utf-16be" output
        = Some (true, [Byte.xed; Byte.xa0; Byte.x81])).
Proof.
  split; [|split; [|split]].
  - intros S emit big_endian pre post c c2 d d2 s H Hu Hv.
    rewrite (utf16_loop_app emit big_endian (length pre) pre _ s (le_n _) H).
    destruct (utf16_loop emit big_endian pre s) as [s1|]; [|reflexivity].
    apply utf16_step_unpaired; assumption.
  - intros big_endian pre post c c2 d d2 H Hu Hv.
    destruct (utf16_decode_app big_endian pre (c :: c2 :: d :: d2 :: post) H)
      as (front & mid & Ef & Em & E).
    rewrite utf16_decode_unpaired in Em by assumption.
    destruct (utf16_decode big_endian post) as [back|] eqn:Eb; [|discriminate Em].
    cbn [option_map] in Em. inversion Em; subst mid.
    exists front, back.
    split; [exact Ef|]. split; [reflexivity|]. split; [exact E|].
    intros env fuel charset output e D N.
    rewrite (convert_named_order env fuel _ charset output e big_endian D N)
      by (rewrite length_app; cbn [length]; lia).
    rewrite E. reflexivity.
  - intros big_endian pre a a2. split; [reflexivity|].
    intros He Hu.
    exact (consumed_whole_after_plain big_endian (length pre) pre a a2 (le_n _) He Hu).
  - intros env fuel output. unfold convert_to_utf8_.
    rewrite (convert_utf16 env encode fuel _ _ output BigEndian)
      by (try reflexivity; cbn; lia).
    vm_compute. reflexivity.
Qed.

Lemma utf16_high_without_low_witness :
  consumed_whole false [Byte.x5a; Byte.x00] = true
  /\ high_surrogate (unit16 false Byte.x00 Byte.xd8)
  /\ ~ low_surrogate (unit16 false Byte.x41 Byte.x00)
  /\ utf16_loop collect false
       ([Byte.x5a; Byte.x00]
        ++ Byte.x00 :: Byte.xd8 :: Byte.x41 :: Byte.x00 :: [Byte.x42; Byte.x00]) []
     = Some [0x5a; 0x41; 0x42].
Proof.
  assert (H : consumed_whole false [Byte.x5a; Byte.x00] = true) by reflexivity.
  assert (Hu : high_surrogate (unit16 false Byte.x00 Byte.xd8))
    by (vm_compute; split; discriminate).
  assert (Hv : ~ low_surrogate (unit16 false Byte.x41 Byte.x00))
    by (vm_compute; intros [G _]; apply G; reflexivity).
  split; [exact H|]. split; [exact Hu|]. split; [exact Hv|].
  rewrite (proj1 utf16_high_without_low (list Z) collect false
             [Byte.x5a; Byte.x00] [Byte.x42; Byte.x00]
             Byte.x00 Byte.xd8 Byte.x41 Byte.x00 [] H Hu Hv).
  reflexivity.
Defined.

(** ** Truncated UTF-16 *)

Lemma byte_order_of_tail (e : endianness) (text : list byte) (b : byte) :
  (2 <= length text)%nat ->
  byte_order_of e (text ++ [b]) = byte_order_of e text.
Proof.
  intros L. unfold byte_order_of.
  rewrite !startswith_app by (cbn; lia). reflexivity.
Qed.

Lemma convert_utf16_defined (env : iconv_env) (fuel : nat) (text : list byte)
    (charset : string) (output : list byte) (e : endianness) :
  dispatch charset = Utf16 e -> (2 <= length text)%nat ->
  exists scalars,
    Forall Utf8.in_code_space scalars
    /\ convert_to_utf8_ env fuel text charset output = Some (true, utf8_of scalars)
    /\ convert_with env encode_checked fuel text charset output
       = Some (true, utf8_of scalars).
Proof.
  intros D L. unfold convert_to_utf8_.
  rewrite !(convert_utf16 env _ fuel text charset output e D L).
  destruct (utf16_loop_result (fst (byte_order_of e text))
              (span (snd (byte_order_of e text)) (utf16_text_end text) text))
    as (scs & s & _ & F & E & E' & P).
  { apply span_even. unfold byte_order_of.
    destruct e; cbn [snd]; auto.
    destruct (startswith text _); [cbn [snd]; auto|].
    destruct (startswith text _); cbn [snd]; auto. }
  exists scs. rewrite E, E'. cbn [converted]. rewrite P. auto.
Qed.

(** C5, as it is stated.  A text of one byte has odd length, but under a
    UTF-16 label it is not decoded on its (empty) even-length prefix: the
    function returns false at the test of line 77.  And in D8 00 D8 01
    under "utf-16be" the last unit D801 is a high surrogate with nothing
    behind it, but it is not discarded: the iteration that reads D800
    first takes it as its second unit, and its three bytes ED A0 81 are
    the output. *)
Lemma utf16_truncation_refuted :
  ~ (exists bytes,
        convert_to_utf8_ no_iconv 0 [Byte.x41] "utf-16be" [Byte.x41] = Some (true, bytes))
  /\ high_surrogate (unit16 true Byte.xd8 Byte.x01)
  /\ convert_to_utf8_ no_iconv 0 [Byte.xd8; Byte.x00; Byte.xd8; Byte.x01] "utf-16be" []
     = Some (true, Unicode.to_utf8 (unit16 true Byte.xd8 Byte.x01))
  /\ Unicode.to_utf8 (unit16 true Byte.xd8 Byte.x01) = [Byte.xed; Byte.xa0; Byte.x81]
  /\ convert_to_utf8_ no_iconv 0 [Byte.xd8; Byte.x00; Byte.xd8; Byte.x01] "utf-16be" []
     <> convert_to_utf8_ no_iconv 0 [Byte.xd8; Byte.x00] "utf-16be" [].
Proof.
  split; [intros [bytes H]; vm_compute in H; discriminate H|].
  split; [vm_compute; split; discriminate|].
  split; [vm_compute; reflexivity|].
  split; [vm_compute; reflexivity|].
  vm_compute. discriminate.
Qed.

(** C5, amended.  For a label that selects the UTF-16 decoder and a text
    of at least two bytes: a text of odd length is converted exactly as
    the text without its last byte, the loop never stepping over the end
    of the text; a high surrogate that is the last unit of what the loop
    has left ends the loop with nothing encoded for it; and every such
    text is converted ([converted = true]).  With "utf-16be", 00 41 42 and
    00 41 D8 3D are both converted to the byte 41.  In a whole text: let
    an iteration of the loop start at a high surrogate (the bytes [pre]
    in front of it are stepped through in complete iterations; this is so
    when it is the first unit decoded and when the unit in front of it is
    not a high surrogate) with at most a single byte behind it.  Then the
    loop ends there in the state it had behind [pre], the output of the
    decoder is the output for [pre], and that is the result of
    [convert_to_utf8_], with [converted = true], under a label that names
    the byte order. *)
Theorem utf16_truncated_input :
  (forall (env : iconv_env) (fuel : nat) (charset : string) (e : endianness)
          (output text : list byte) (b : byte),
      dispatch charset = Utf16 e ->
      (2 <= length text)%nat -> Nat.even (length text) = true ->
      convert_to_utf8_ env fuel (text ++ [b]) charset output
      = convert_to_utf8_ env fuel text charset output)
  /\ (forall (S : Type) (emit : Z -> S -> option S) (big_endian : bool)
             (c c2 : byte) (s : S),
        high_surrogate (unit16 big_endian c c2) ->
        utf16_loop emit big_endian [c; c2] s = Some s)
  /\ (forall (env : iconv_env) (fuel : nat) (charset : string) (e : endianness)
             (output text : list byte),
        dispatch charset = Utf16 e -> (2 <= length text)%nat ->
        exists bytes, convert_to_utf8_ env fuel text charset output = Some (true, bytes))
  /\ (forall (env : iconv_env) (fuel : nat) (output : list byte),
        convert_to_utf8_ env fuel [Byte.x00; Byte.x41; Byte.x42] "utf-16be" output
        = Some (true, [Byte.x41])
        /\ convert_to_utf8_ env fuel [Byte.x00; Byte.x41; Byte.xd8; Byte.x3d]
             "utf-16be" output
           = Some (true, [Byte.x41]))
  /\ (forall (S : Type) (emit : Z -> S -> option S) (big_endian : bool)
             (pre : list byte) (c c2 : byte) (s : S),
        consumed_whole big_endian pre = true ->
        high_surrogate (unit16 big_endian c c2) ->
        utf16_loop emit big_endian (pre ++ [c; c2]) s
        = utf16_loop emit big_endian pre s)
  /\ (forall (big_endian : bool) (pre tail : list byte) (c c2 : byte),
        consumed_whole big_endian pre = true ->
        high_surrogate (unit16 big_endian c c2) ->
        (length tail <= 1)%nat ->
        exists front,
          utf16_decode big_endian pre = Some front
          /\ utf16_decode big_endian (pre ++ c :: c2 :: tail) = Some front
          /\ (forall (env : iconv_env) (fuel : nat) (charset : string)
                     (output : list byte) (e : endianness),
                dispatch charset = Utf16 e -> named_order e = Some big_endian ->
                convert_to_utf8_ env fuel (pre ++ c :: c2 :: tail) charset output
                = Some (true, front)))
  /\ (forall (big_endian : bool) (pre : list byte) (a a2 : byte),
        consumed_whole big_endian [] = true
        /\ (Nat.even (length pre) = true ->
            ~ high_surrogate (unit16 big_endian a a2) ->
            consumed_whole big_endian (pre ++ [a; a2]) = true)).
Proof.
  split; [|split; [|split; [|split; [|split; [|split]]]]].
  - intros env fuel charset e output text b D L He.
    unfold convert_to_utf8_.
    rewrite !(convert_utf16 env encode fuel _ charset output e D)
      by (rewrite ?length_app; cbn [length]; lia).
    rewrite byte_order_of_tail by exact L.
    rewrite span_odd_tail by exact He.
    reflexivity.
  - intros S emit big_endian c c2 s Hu.
    apply utf16_step_last_high. exact Hu.
  - intros env fuel charset e output text D L.
    destruct (convert_utf16_defined env fuel text charset output e D L)
      as (scs & _ & E & _).
    exists (utf8_of scs). exact E.
  - intros env fuel output. split.
    + rewrite (convert_utf16_at env fuel _ _ output BigEndian true 0)
        by (try reflexivity; cbn; lia).
      vm_compute. reflexivity.
    + rewrite (convert_utf16_at env fuel _ _ output BigEndian true 0)
        by (try reflexivity; cbn; lia).
      vm_compute. reflexivity.
  - intros S emit big_endian pre c c2 s H Hu.
    rewrite (utf16_loop_app emit big_endian (length pre) pre _ s (le_n _) H).
    destruct (utf16_loop emit big_endian pre s) as [s1|]; [|reflexivity].
    apply utf16_step_last_high. exact Hu.
  - intros big_endian pre tail c c2 H Hu Ht.
    destruct (utf16_decode_app big_endian pre (c :: c2 :: tail) H)
      as (front & back & Ef & Eb & E).
    rewrite (utf16_decode_last_high big_endian c c2 tail Hu Ht) in Eb.
    inversion Eb; subst back. rewrite app_nil_r in E.
    exists front. split; [exact Ef|]. split; [exact E|].
    intros env fuel charset output e D N.
    rewrite (convert_named_order env fuel _ charset output e big_endian D N)
      by (rewrite length_app; cbn [length]; lia).
    rewrite E. reflexivity.
  - intros big_endian pre a a2. split; [reflexivity|].
    intros He Hu.
    exact (consumed_whole_after_plain big_endian (length pre) pre a a2 (le_n _) He Hu).
Qed.

Lemma utf16_truncated_input_witness :
  dispatch "ucs-2le" = Utf16 LittleEndian
  /\ (2 <= length [Byte.x41; Byte.x00])%nat
  /\ Nat.even (length [Byte.x41; Byte.x00]) = true
  /\ convert_to_utf8_ no_iconv 0 ([Byte.x41; Byte.x00] ++ [Byte.x42]) "ucs-2le" []
     = convert_to_utf8_ no_iconv 0 [Byte.x41; Byte.x00] "ucs-2le" []
  /\ consumed_whole true [Byte.x00; Byte.x41] = true
  /\ high_surrogate (unit16 true Byte.xd8 Byte.x3d)
  /\ utf16_loop collect true ([Byte.x00; Byte.x41] ++ [Byte.xd8; Byte.x3d]) []
     = utf16_loop collect true [Byte.x00; Byte.x41] [].
Proof.
  assert (D : dispatch "ucs-2le" = Utf16 LittleEndian) by reflexivity.
  assert (L : (2 <= length [Byte.x41; Byte.x00])%nat) by (simpl; lia).
  assert (E : Nat.even (length [Byte.x41; Byte.x00]) = true) by reflexivity.
  assert (H : consumed_whole true [Byte.x00; Byte.x41] = true) by reflexivity.
  assert (Hu : high_surrogate (unit16 true Byte.xd8 Byte.x3d))
    by (vm_compute; split; discriminate).
  split; [exact D|]. split; [exact L|]. split; [exact E|].
  split.
  - exact (proj1 utf16_truncated_input no_iconv 0%nat "ucs-2le" LittleEndian []
             [Byte.x41; Byte.x00] Byte.x42 D L E).
  - split; [exact H|]. split; [exact Hu|].
    exact (proj1 (proj2 (proj2 (proj2 (proj2 utf16_truncated_input))))
             (list Z) collect true [Byte.x00; Byte.x41] Byte.xd8 Byte.x3d [] H Hu).
Defined.

(** ** Single-byte tables *)

Lemma convert_single_byte_result (env : iconv_env) (fuel : nat) (text : list byte)
    (charset : string) (output : list byte) (t : table) :
  dispatch charset = SingleByte t ->
  convert_to_utf8_ env fuel text charset output
  = Some (true, utf8_of (map (table_code_point (table_entries t) (table_base t)) text))
  /\ convert_with env encode_checked fuel text charset output
     = convert_to_utf8_ env fuel text charset output.
Proof.
  intros D. unfold convert_to_utf8_.
  rewrite !(convert_single_byte env _ fuel text charset output t D).
  destruct (table_loop_result (table_entries t) (table_base t) text) as (s & E & E' & P).
  rewrite E, E'. cbn [converted]. rewrite P. auto.
Qed.

(** C6. The label "iso-8859-1" gives on every text the result of the
    label "windows-1252", the flag and the bytes; the byte 80 under
    "iso-8859-1" is converted to E2 82 AC, the encoding of U+20AC. *)
Theorem iso_8859_1_is_windows_1252 :
  forall (env : iconv_env) (fuel : nat) (text output : list byte),
    convert_to_utf8_ env fuel text "iso-8859-1" output
    = convert_to_utf8_ env fuel text "windows-1252" output
    /\ convert_to_utf8_ env fuel [Byte.x80] "iso-8859-1" output
       = Some (true, [Byte.xe2; Byte.x82; Byte.xac]).
Proof.
  intros env fuel text output.
  assert (D1 : dispatch "iso-8859-1" = SingleByte Cp1252OrLatin1) by reflexivity.
  assert (D2 : dispatch "windows-1252" = SingleByte Cp1252OrLatin1) by reflexivity.
  split.
  - rewrite (proj1 (convert_single_byte_result env fuel text _ output _ D1)).
    rewrite (proj1 (convert_single_byte_result env fuel text _ output _ D2)).
    reflexivity.
  - rewrite (proj1 (convert_single_byte_result env fuel _ _ output _ D1)).
    vm_compute. reflexivity.
Qed.

(** C8. A label that selects a single-byte table turns the text, byte by
    byte and in order, into the encodings of one scalar value per byte: the
    table entry for a byte in the range of the table (80-9F for cp1252,
    A4-BE for iso-8859-15), the value of the byte otherwise.  The byte A4
    under "iso-8859-15" is converted to E2 82 AC. *)
Theorem single_byte_decoder_maps_each_byte :
  (forall (env : iconv_env) (fuel : nat) (charset : string) (text output : list byte),
      (dispatch charset = SingleByte Cp1252OrLatin1 ->
       convert_to_utf8_ env fuel text charset output
       = Some (true, utf8_of (map (tabulated 0x80 0x9f cp1252_to_unicode) text)))
      /\ (dispatch charset = SingleByte Iso8859_15 ->
          convert_to_utf8_ env fuel text charset output
          = Some (true, utf8_of (map (tabulated 0xa4 0xbe iso8859_15_to_unicode) text))))
  /\ (forall (env : iconv_env) (fuel : nat) (output : list byte),
        convert_to_utf8_ env fuel [Byte.xa4] "iso-8859-15" output
        = Some (true, [Byte.xe2; Byte.x82; Byte.xac])).
Proof.
  split.
  - intros env fuel charset text output. split; intros D.
    + rewrite (proj1 (convert_single_byte_result env fuel text _ output _ D)).
      do 2 f_equal. f_equal. apply map_ext. intros b.
      apply (table_code_point_tabulated Cp1252OrLatin1).
    + rewrite (proj1 (convert_single_byte_result env fuel text _ output _ D)).
      do 2 f_equal. f_equal. apply map_ext. intros b.
      apply (table_code_point_tabulated Iso8859_15).
  - intros env fuel output.
    assert (D : dispatch "iso-8859-15" = SingleByte Iso8859_15) by reflexivity.
    rewrite (proj1 (convert_single_byte_result env fuel _ _ output _ D)).
    vm_compute. reflexivity.
Qed.

Lemma single_byte_decoder_maps_each_byte_witness :
  dispatch "cp1252" = SingleByte Cp1252OrLatin1
  /\ convert_to_utf8_ no_iconv 0 [Byte.x41; Byte.x80; Byte.xe9] "cp1252" []
     = Some (true, utf8_of (map (tabulated 0x80 0x9f cp1252_to_unicode)
                              [Byte.x41; Byte.x80; Byte.xe9])).
Proof.
  assert (D : dispatch "cp1252" = SingleByte Cp1252OrLatin1) by reflexivity.
  split; [exact D|].
  exact (proj1 (proj1 single_byte_decoder_maps_each_byte no_iconv 0%nat "cp1252"
                  [Byte.x41; Byte.x80; Byte.xe9] []) D).
Defined.

(** ** The staging buffer *)

(** C9. Put the assertion that at least four bytes of [buf] are free in
    front of every encoding step: on every text and label the conversion
    behaves as without it, so the assertion holds each time a scalar value
    is encoded; and the conversion has a defined result, in which no write
    has left [buf], unless the external conversion loop does not end.  A
    step that passes the assertion writes inside [buf]. *)
Theorem staging_buffer_never_overrun :
  forall (env : iconv_env) (fuel : nat) (text : list byte) (charset : string)
         (output : list byte),
    convert_with env encode_checked fuel text charset output
    = convert_to_utf8_ env fuel text charset output
    /\ (convert_to_utf8_ env fuel text charset output = None ->
        try_iconv env fuel text charset output = None)
    /\ (forall (ch : Z) (s s' : staging),
          encode_checked ch s = Some s' ->
          (4 <= sizeof_buf - start s)%nat
          /\ (start s + length (Unicode.to_utf8 ch) <= sizeof_buf)%nat).
Proof.
  intros env fuel text charset output.
  split; [|split].
  - destruct (dispatch charset) as [|e|t|] eqn:D.
    + unfold convert_to_utf8_. rewrite !convert_passthrough by exact D. reflexivity.
    + destruct (Nat.lt_ge_cases (length text) 2) as [L | L].
      * unfold convert_to_utf8_.
        rewrite !convert_utf16_short
          by (try exact L; apply (dispatch_utf16_prefixed _ e D)).
        reflexivity.
      * destruct (convert_utf16_defined env fuel text charset output e D L)
          as (scs & _ & E & E').
        rewrite E, E'. reflexivity.
    + apply (convert_single_byte_result env fuel text charset output t D).
    + unfold convert_to_utf8_. rewrite !convert_generic by exact D. reflexivity.
  - intros N.
    destruct (dispatch charset) as [|e|t|] eqn:D.
    + unfold convert_to_utf8_ in N. rewrite convert_passthrough in N by exact D.
      discriminate N.
    + destruct (Nat.lt_ge_cases (length text) 2) as [L | L].
      * unfold convert_to_utf8_ in N.
        rewrite convert_utf16_short in N
          by (try exact L; apply (dispatch_utf16_prefixed _ e D)).
        discriminate N.
      * destruct (convert_utf16_defined env fuel text charset output e D L)
          as (scs & _ & E & _).
        rewrite E in N. discriminate N.
    + rewrite (proj1 (convert_single_byte_result env fuel text charset output t D)) in N.
      discriminate N.
    + unfold convert_to_utf8_ in N. rewrite convert_generic in N by exact D.
      destruct (utf16_prefixed charset && (length text <? 2)%nat);
        [discriminate N | exact N].
  - intros ch s s' E. unfold encode_checked in E.
    destruct (Nat.leb_spec 4 (sizeof_buf - start s)) as [C | C]; [|discriminate E].
    split; [exact C|].
    unfold encode in E.
    destruct (Nat.leb_spec (start s + length (Unicode.to_utf8 ch)) sizeof_buf);
      [assumption | discriminate E].
Qed.

Lemma staging_buffer_never_overrun_witness :
  encode_checked 0x20ac staging_init <> None
  /\ (4 <= sizeof_buf - start staging_init)%nat
  /\ (start staging_init + length (Unicode.to_utf8 0x20ac) <= sizeof_buf)%nat.
Proof.
  destruct (encode_checked 0x20ac staging_init) as [s'|] eqn:E;
    [|vm_compute in E; discriminate E].
  split; [discriminate|].
  exact (proj2 (proj2 (staging_buffer_never_overrun no_iconv 0%nat [] "" []))
           0x20ac staging_init s' E).
Defined.

(** ** When no conversion is made *)







(** ** Well-formed output *)

(** C1, as it is stated.  Under "utf-16be" the two bytes DC 00, a low
    surrogate on its own, are converted to ED B0 80, which is no
    well-formed UTF-8. *)
Lemma lone_surrogate_output_ill_formed :
  ~ (forall bytes,
        convert_to_utf8_ no_iconv 0 [Byte.xdc; Byte.x00] "utf-16be" [] = Some (true, bytes) ->
        Utf8.well_formed bytes = true).
Proof.
  intros H.
  specialize (H [Byte.xed; Byte.xb0; Byte.x80]).
  assert (E : convert_to_utf8_ no_iconv 0 [Byte.xdc; Byte.x00] "utf-16be" []
              = Some (true, [Byte.xed; Byte.xb0; Byte.x80])) by (vm_compute; reflexivity).
  apply H in E. vm_compute in E. discriminate E.
Qed.

(** C1, amended.  Whenever [convert_to_utf8_] returns true (the external
    facility, where it is used, writing whole characters only), the output
    is the concatenation of the complete encodings of a sequence of code
    points: nothing is flushed in the middle of one.  The output is
    well-formed UTF-8 exactly when none of these code points is a
    surrogate, and always when the label does not select the UTF-16
    decoder: only that decoder lets surrogates through. *)
Theorem converted_output_encodes_code_points :
  forall (env : iconv_env) (fuel : nat) (text : list byte) (charset : string)
         (output bytes : list byte),
    iconv_writes_characters env ->
    convert_to_utf8_ env fuel text charset output = Some (true, bytes) ->
    exists scalars,
      Forall Utf8.in_code_space scalars
      /\ bytes = utf8_of scalars
      /\ Utf8.well_formed bytes
         = forallb (fun ch => negb (Utf8.is_surrogate ch)) scalars
      /\ ((forall e, dispatch charset <> Utf16 e) -> Utf8.well_formed bytes = true).
Proof.
  intros env fuel text charset output bytes W E.
  assert (G : forall scs,
             Forall (fun ch => Utf8.in_code_space ch /\ Utf8.is_surrogate ch = false) scs ->
             exists scalars,
               Forall Utf8.in_code_space scalars
               /\ utf8_of scs = utf8_of scalars
               /\ Utf8.well_formed (utf8_of scs)
                  = forallb (fun ch => negb (Utf8.is_surrogate ch)) scalars
               /\ ((forall e, dispatch charset <> Utf16 e) ->
                   Utf8.well_formed (utf8_of scs) = true)).
  { intros scs F. destruct (forallb_no_surrogate scs F) as [F1 F2].
    exists scs. split; [exact F1|]. split; [reflexivity|].
    rewrite well_formed_utf8_of by exact F1. split; [reflexivity|].
    intros _. exact F2. }
  destruct (dispatch charset) as [|e|t|] eqn:D.
  - unfold convert_to_utf8_ in E. rewrite convert_passthrough in E by exact D.
    discriminate E.
  - destruct (Nat.lt_ge_cases (length text) 2) as [L | L].
    + unfold convert_to_utf8_ in E.
      rewrite convert_utf16_short in E
        by (try exact L; apply (dispatch_utf16_prefixed _ e D)).
      discriminate E.
    + destruct (convert_utf16_defined env fuel text charset output e D L)
        as (scs & F & E' & _).
      rewrite E' in E. injection E as <-.
      exists scs. split; [exact F|]. split; [reflexivity|].
      split; [apply well_formed_utf8_of; exact F|].
      intros N. contradiction (N e). reflexivity.
  - rewrite (proj1 (convert_single_byte_result env fuel text charset output t D)) in E.
    injection E as <-. apply G.
    apply Forall_forall. intros ch Hin. apply in_map_iff in Hin.
    destruct Hin as (b & <- & _). apply table_code_point_good.
  - unfold convert_to_utf8_ in E. rewrite convert_generic in E by exact D.
    destruct (utf16_prefixed charset && (length text <? 2)%nat); [discriminate E|].
    unfold try_iconv in E.
    destruct (HAVE_ICONV env); [|discriminate E].
    destruct (iconv_open env "UTF-8" (c_str charset)) as [conv|]; [|discriminate E].
    destruct (iconv_loop env fuel conv text []) as [tmp|] eqn:L; [|discriminate E].
    injection E as <-.
    destruct (iconv_loop_characters env W fuel conv text [] tmp (Forall_nil _) L)
      as (scs & F & ->).
    apply G. exact F.
Qed.

Lemma converted_output_encodes_code_points_witness :
  iconv_writes_characters no_iconv
  /\ convert_to_utf8_ no_iconv 0 [Byte.xdc; Byte.x00; Byte.x00; Byte.x41] "utf-16be" []
     = Some (true, [Byte.xed; Byte.xb0; Byte.x80; Byte.x41])
  /\ exists scalars,
       Forall Utf8.in_code_space scalars
       /\ [Byte.xed; Byte.xb0; Byte.x80; Byte.x41] = utf8_of scalars
       /\ Utf8.well_formed [Byte.xed; Byte.xb0; Byte.x80; Byte.x41]
          = forallb (fun ch => negb (Utf8.is_surrogate ch)) scalars.
Proof.
  assert (W : iconv_writes_characters no_iconv).
  { intros conv input n. exists []. split; [constructor | reflexivity]. }
  assert (E : convert_to_utf8_ no_iconv 0 [Byte.xdc; Byte.x00; Byte.x00; Byte.x41]
                "utf-16be" []
              = Some (true, [Byte.xed; Byte.xb0; Byte.x80; Byte.x41]))
    by (vm_compute; reflexivity).
  split; [exact W|]. split; [exact E|].
  destruct (converted_output_encodes_code_points no_iconv 0%nat
              [Byte.xdc; Byte.x00; Byte.x00; Byte.x41] "utf-16be" []
              [Byte.xed; Byte.xb0; Byte.x80; Byte.x41] W E)
    as (scs & F & B & Wf & _).
  exists scs. auto.
Defined.

(** * Further properties *)

(** ** The label is parsed without regard to case *)

Lemma tolower_idem (c : ascii) : tolower (tolower c) = tolower c.
Proof.
  destruct c as [b0 b1 b2 b3 b4 b5 b6 b7].
  destruct b0, b1, b2, b3, b4, b5, b6, b7; reflexivity.
Qed.

Lemma lower_idem (s : string) : lower (lower s) = lower s.
Proof.
  induction s as [|c r IH]; [reflexivity|].
  cbn [lower]. rewrite tolower_idem, IH. reflexivity.
Qed.

Lemma eqb_tolower (c d : ascii) :
  caseless d -> Ascii.eqb (tolower c) d = Ascii.eqb c d.
Proof.
  intros [Hl Hu].
  destruct (Ascii.eqb_spec (tolower c) d) as [E | N];
    destruct (Ascii.eqb_spec c d) as [E' | N']; try reflexivity.
  - apply tolower_inv in E. destruct E as [E | E]; [contradiction|].
    rewrite Hu in E. contradiction.
  - subst c. rewrite Hl in N. contradiction.
Qed.

Lemma caseless_zero : caseless Ascii.zero.
Proof. split; reflexivity. Qed.

Lemma compare_n_lower_left (n : nat) :
  forall a b, compare_n tolower n (lower a) b = compare_n tolower n a b.
Proof.
  induction n as [|n IH]; intros a b; [reflexivity|].
  destruct a as [|c r], b as [|d t]; cbn [lower compare_n];
    rewrite ?tolower_idem, ?IH; reflexivity.
Qed.

Lemma strcasecmp_lower_left (a b : string) :
  strcasecmp (lower a) b = strcasecmp a b.
Proof.
  unfold strcasecmp, compare_all.
  rewrite lower_length. apply compare_n_lower_left.
Qed.

Lemma strncasecmp_lower_left (a b : string) (n : nat) :
  strncasecmp (lower a) b n = strncasecmp a b n.
Proof. apply compare_n_lower_left. Qed.

(** A comparison with case against a name without letters. *)
Lemma compare_n_caseless (n : nat) :
  forall a t, all_caseless t ->
  (compare_n (fun c => c) n (lower a) t =? 0) = (compare_n (fun c => c) n a t =? 0).
Proof.
  induction n as [|n IH]; intros a t Ht; [reflexivity|].
  destruct a as [|c r], t as [|d t']; cbn [lower compare_n]; try reflexivity.
  - destruct (Z.eqb_spec (code (tolower c)) 0) as [E | N];
      destruct (Z.eqb_spec (code c) 0) as [E' | N']; try reflexivity.
    + apply code_zero, tolower_zero in E. subst c. contradiction N'. reflexivity.
    + apply code_zero in E'. subst c. contradiction N. reflexivity.
  - destruct Ht as [Hd Ht].
    assert (Q : (code (tolower c) - code d =? 0) = (code c - code d =? 0)).
    { pose proof (eqb_tolower c d Hd) as Q.
      destruct (Z.eqb_spec (code (tolower c) - code d) 0) as [E | N];
        destruct (Z.eqb_spec (code c - code d) 0) as [E' | N']; try reflexivity.
      - assert (X : tolower c = d) by (apply code_inj; lia).
        rewrite X, Ascii.eqb_refl in Q. symmetry in Q. apply Ascii.eqb_eq in Q.
        subst c. lia.
      - assert (X : c = d) by (apply code_inj; lia).
        subst c. destruct Hd as [Hl _]. rewrite Hl in N. lia. }
    rewrite Q. destruct (Z.eqb_spec (code c - code d) 0) as [E | E];
      [apply IH; exact Ht|].
    rewrite Q. apply Z.eqb_neq in E. rewrite E. reflexivity.
Qed.

Lemma strcmp_caseless (a t : string) :
  all_caseless t -> (strcmp (lower a) t =? 0) = (strcmp a t =? 0).
Proof.
  intros Ht. unfold strcmp, compare_all. rewrite lower_length.
  apply compare_n_caseless. exact Ht.
Qed.

Lemma c_str_lower (s : string) : c_str (lower s) = lower (c_str s).
Proof.
  induction s as [|c r IH]; [reflexivity|].
  cbn [lower c_str]. rewrite (eqb_tolower c Ascii.zero caseless_zero).
  destruct (Ascii.eqb c Ascii.zero); [reflexivity|].
  cbn [lower]. rewrite IH. reflexivity.
Qed.

Lemma advance_lower (n : nat) : forall p, advance n (lower p) = lower (advance n p).
Proof.
  induction n as [|n IH]; intros p; [reflexivity|].
  destruct p as [|c r]; [reflexivity|]. cbn [lower advance]. apply IH.
Qed.

Lemma deref_lower (p : string) : deref (lower p) = tolower (deref p).
Proof. destruct p; reflexivity. Qed.

Lemma deref_lower_eqb (p : string) (d : ascii) :
  caseless d -> Ascii.eqb (deref (lower p)) d = Ascii.eqb (deref p) d.
Proof. intros H. rewrite deref_lower. apply eqb_tolower. exact H. Qed.

Lemma skip_separator_lower (p : string) :
  skip_separator (lower p) = lower (skip_separator p).
Proof.
  unfold skip_separator.
  rewrite !deref_lower_eqb by (split; reflexivity).
  destruct (Ascii.eqb (deref p) "-" || Ascii.eqb (deref p) "_" || Ascii.eqb (deref p) " ");
    [apply advance_lower | reflexivity].
Qed.

Lemma utf_prefix_lower (p : string) :
  utf_prefix (lower p)
  = option_map (fun r => (fst r, lower (snd r))) (utf_prefix p).
Proof.
  unfold utf_prefix.
  rewrite !strncasecmp_lower_left.
  destruct (strncasecmp p "utf" 3 =? 0).
  - rewrite advance_lower, skip_separator_lower, !advance_lower.
    rewrite !deref_lower_eqb by (split; reflexivity).
    destruct (negb _ || negb _); reflexivity.
  - destruct (strncasecmp p "ucs" 3 =? 0); [|reflexivity].
    rewrite advance_lower, skip_separator_lower, !advance_lower.
    rewrite !deref_lower_eqb by (split; reflexivity).
    destruct (negb _); reflexivity.
Qed.

Lemma utf16_suffix_lower (p : string) : utf16_suffix (lower p) = utf16_suffix p.
Proof.
  unfold utf16_suffix.
  rewrite deref_lower_eqb by exact caseless_zero.
  rewrite !strcasecmp_lower_left. reflexivity.
Qed.

Lemma legacy_label_lower (p : string) : legacy_label (lower p) = legacy_label p.
Proof.
  unfold legacy_label.
  rewrite !strncasecmp_lower_left.
  destruct (strncasecmp p "windows" 7 =? 0).
  - rewrite advance_lower, skip_separator_lower.
    rewrite strcmp_caseless by (cbn; repeat split). reflexivity.
  - destruct (strncasecmp p "cp" 2 =? 0).
    + rewrite advance_lower, skip_separator_lower.
      rewrite strcmp_caseless by (cbn; repeat split). reflexivity.
    + assert (Q : (if strncasecmp p "iso" 3 =? 0
                   then skip_separator (advance 3 (lower p)) else lower p)
                  = lower (if strncasecmp p "iso" 3 =? 0
                           then skip_separator (advance 3 p) else p)).
      { destruct (strncasecmp p "iso" 3 =? 0); [|reflexivity].
        rewrite advance_lower, skip_separator_lower. reflexivity. }
      rewrite Q. set (p' := if strncasecmp p "iso" 3 =? 0 then _ else p).
      unfold strncmp. rewrite compare_n_caseless by (cbn; repeat split).
      rewrite advance_lower, skip_separator_lower, !advance_lower.
      rewrite !deref_lower_eqb by (split; reflexivity).
      rewrite strcmp_caseless by (cbn; repeat split). reflexivity.
Qed.

Lemma already_utf8_lower_left (charset : string) :
  already_utf8 (lower charset) = already_utf8 charset.
Proof.
  unfold already_utf8.
  rewrite lower_length, c_str_lower, !strcasecmp_lower_left. reflexivity.
Qed.

Lemma dispatch_lower (charset : string) :
  dispatch (lower charset) = dispatch charset
  /\ utf16_prefixed (lower charset) = utf16_prefixed charset.
Proof.
  unfold dispatch, utf16_prefixed.
  rewrite already_utf8_lower_left, c_str_lower, utf_prefix_lower.
  destruct (already_utf8 charset); [split; reflexivity|].
  destruct (utf_prefix (c_str charset)) as [[[] p]|]; cbn [option_map fst snd negb andb].
  - rewrite utf16_suffix_lower. split; reflexivity.
  - rewrite legacy_label_lower. split; reflexivity.
  - split; reflexivity.
Qed.

(** What a built-in decoder does is fixed by the decoder selected. *)
Lemma convert_by_dispatch (env : iconv_env) (fuel : nat) (text : list byte)
    (c1 c2 : string) (output : list byte) :
  dispatch c1 = dispatch c2 -> dispatch c1 <> Generic ->
  convert_to_utf8_ env fuel text c1 output = convert_to_utf8_ env fuel text c2 output.
Proof.
  intros E N. unfold convert_to_utf8_.
  destruct (dispatch c1) as [|e|t|] eqn:D1; symmetry in E.
  - rewrite !convert_passthrough by assumption. reflexivity.
  - destruct (Nat.lt_ge_cases (length text) 2) as [L | L].
    + rewrite !convert_utf16_short
        by (try exact L; eapply dispatch_utf16_prefixed; eassumption).
      reflexivity.
    + rewrite (convert_utf16 env encode fuel text c1 output e D1 L).
      rewrite (convert_utf16 env encode fuel text c2 output e E L).
      reflexivity.
  - rewrite (convert_single_byte env encode fuel text c1 output t D1).
    rewrite (convert_single_byte env encode fuel text c2 output t E).
    reflexivity.
  - contradiction N. reflexivity.
Qed.

(** X1. Two labels that differ only in the case of their letters select
    the same decoder, and unless that is the external facility (which is
    handed the label as written) the conversion gives the same result
    for both. *)
Theorem label_case_is_ignored :
  forall (c1 c2 : string),
    lower c1 = lower c2 ->
    dispatch c1 = dispatch c2
    /\ (dispatch c1 <> Generic ->
        forall (env : iconv_env) (fuel : nat) (text output : list byte),
          convert_to_utf8_ env fuel text c1 output
          = convert_to_utf8_ env fuel text c2 output).
Proof.
  intros c1 c2 H.
  assert (E : dispatch c1 = dispatch c2).
  { rewrite <- (proj1 (dispatch_lower c1)), <- (proj1 (dispatch_lower c2)), H.
    reflexivity. }
  split; [exact E|].
  intros N env fuel text output. apply convert_by_dispatch; assumption.
Qed.

Lemma label_case_is_ignored_witness :
  lower "ISO_8859-15" = lower "iso_8859-15"
  /\ dispatch "ISO_8859-15" = dispatch "iso_8859-15"
  /\ convert_to_utf8_ no_iconv 0 [Byte.xa4] "ISO_8859-15" []
     = convert_to_utf8_ no_iconv 0 [Byte.xa4] "iso_8859-15" [].
Proof.
  assert (H : lower "ISO_8859-15" = lower "iso_8859-15") by reflexivity.
  assert (N : dispatch "ISO_8859-15" <> Generic) by (vm_compute; discriminate).
  split; [exact H|].
  split; [exact (proj1 (label_case_is_ignored _ _ H))|].
  exact (proj2 (label_case_is_ignored _ _ H) N no_iconv 0%nat [Byte.xa4] []).
Defined.

(** ** Single-byte decoders: size, ASCII, losslessness, composition *)

Lemma table_code_point_bmp (t : table) (b : byte) :
  0 <= table_code_point (table_entries t) (table_base t) b < 0x10000.
Proof.
  pose proof (byte.unsigned_range b) as R. change (2 ^ 8) with 256 in R.
  unfold table_code_point.
  destruct (Z.ltb_spec (u32 (byte.unsigned b - table_base t))
              (Z.of_nat (length (table_entries t)))) as [L | G]; [|lia].
  assert (F : Forall (fun ch => 0 <= ch < 0x10000) (table_entries t)).
  { destruct t; cbn [table_entries]; unfold cp1252_to_unicode, iso8859_15_to_unicode;
      repeat constructor; lia. }
  rewrite Forall_forall in F. apply F. apply nth_In.
  unfold u32 in *.
  pose proof (Z.mod_pos_bound (byte.unsigned b - table_base t) (2 ^ 32)). lia.
Qed.

Lemma to_utf8_length_bmp (ch : Z) :
  ch < 0x10000 -> (1 <= length (Unicode.to_utf8 ch) <= 3)%nat.
Proof.
  intros H. unfold Unicode.to_utf8.
  destruct (Z.ltb_spec ch 0x80); [cbn; lia|].
  destruct (Z.ltb_spec ch 0x800); [cbn; lia|].
  destruct (Z.ltb_spec ch 0x10000); [cbn; lia | lia].
Qed.

Lemma utf8_of_app (l1 l2 : list Z) : utf8_of (l1 ++ l2) = utf8_of l1 ++ utf8_of l2.
Proof. unfold utf8_of. apply flat_map_app. Qed.

Lemma utf8_of_length_bmp (l : list Z) :
  Forall (fun ch => ch < 0x10000) l ->
  (length l <= length (utf8_of l) <= 3 * length l)%nat.
Proof.
  induction 1 as [|ch l H _ IH]; [cbn; lia|].
  unfold utf8_of in *. cbn [flat_map length]. rewrite length_app.
  pose proof (to_utf8_length_bmp ch H). lia.
Qed.

(** X2. A single-byte decoder turns every byte of the text into one to
    three bytes: the output is at least as long as the text and at most
    three times as long. *)
Theorem single_byte_output_length :
  forall (env : iconv_env) (fuel : nat) (charset : string) (t : table)
         (text output : list byte),
    dispatch charset = SingleByte t ->
    exists bytes,
      convert_to_utf8_ env fuel text charset output = Some (true, bytes)
      /\ (length text <= length bytes <= 3 * length text)%nat.
Proof.
  intros env fuel charset t text output D.
  eexists. split; [apply (convert_single_byte_result env fuel text charset output t D)|].
  pose proof (utf8_of_length_bmp
                (map (table_code_point (table_entries t) (table_base t)) text)) as B.
  rewrite length_map in B. apply B.
  apply Forall_forall. intros ch Hin. apply in_map_iff in Hin.
  destruct Hin as (b & <- & _). apply table_code_point_bmp.
Qed.

Lemma single_byte_output_length_witness :
  dispatch "windows-1252" = SingleByte Cp1252OrLatin1
  /\ exists bytes,
       convert_to_utf8_ no_iconv 0 [Byte.x41; Byte.x80; Byte.xe9] "windows-1252" []
       = Some (true, bytes)
       /\ (3 <= length bytes <= 9)%nat.
Proof.
  assert (D : dispatch "windows-1252" = SingleByte Cp1252OrLatin1) by reflexivity.
  split; [exact D|].
  exact (single_byte_output_length no_iconv 0%nat "windows-1252" Cp1252OrLatin1
           [Byte.x41; Byte.x80; Byte.xe9] [] D).
Defined.

Lemma table_code_point_ascii (t : table) (b : byte) :
  byte.unsigned b < 0x80 ->
  Unicode.to_utf8 (table_code_point (table_entries t) (table_base t) b) = [b].
Proof.
  intros H.
  pose proof (byte.unsigned_range b) as R. change (2 ^ 8) with 256 in R.
  rewrite table_code_point_tabulated.
  assert (E : tabulated 0x80 0x9f cp1252_to_unicode b = byte.unsigned b
              /\ tabulated 0xa4 0xbe iso8859_15_to_unicode b = byte.unsigned b).
  { unfold tabulated. split.
    - destruct (Z.leb_spec 0x80 (byte.unsigned b)); [lia | reflexivity].
    - destruct (Z.leb_spec 0xa4 (byte.unsigned b)); [lia | reflexivity]. }
  destruct E as [E1 E2].
  destruct t; rewrite ?E1, ?E2; unfold Unicode.to_utf8;
    (destruct (Z.ltb_spec (byte.unsigned b) 0x80); [|lia]);
    rewrite byte.of_Z_unsigned; reflexivity.
Qed.

(** X3. A single-byte decoder leaves 7-bit ASCII as it is: a text of
    bytes below 0x80 is converted to itself. *)
Theorem single_byte_ascii_unchanged :
  forall (env : iconv_env) (fuel : nat) (charset : string) (t : table)
         (text output : list byte),
    dispatch charset = SingleByte t ->
    Forall (fun b => byte.unsigned b < 0x80) text ->
    convert_to_utf8_ env fuel text charset output = Some (true, text).
Proof.
  intros env fuel charset t text output D A.
  rewrite (proj1 (convert_single_byte_result env fuel text charset output t D)).
  do 2 f_equal. unfold utf8_of.
  induction A as [|b l Hb _ IH]; [reflexivity|].
  cbn [map flat_map]. rewrite table_code_point_ascii by exact Hb.
  rewrite IH. reflexivity.
Qed.

Lemma single_byte_ascii_unchanged_witness :
  dispatch "iso-8859-15" = SingleByte Iso8859_15
  /\ Forall (fun b => byte.unsigned b < 0x80) [Byte.x48; Byte.x69; Byte.x0a]
  /\ convert_to_utf8_ no_iconv 0 [Byte.x48; Byte.x69; Byte.x0a] "iso-8859-15" []
     = Some (true, [Byte.x48; Byte.x69; Byte.x0a]).
Proof.
  assert (D : dispatch "iso-8859-15" = SingleByte Iso8859_15) by reflexivity.
  assert (A : Forall (fun b => byte.unsigned b < 0x80) [Byte.x48; Byte.x69; Byte.x0a])
    by (repeat constructor).
  split; [exact D|]. split; [exact A|].
  exact (single_byte_ascii_unchanged no_iconv 0%nat "iso-8859-15" Iso8859_15
           [Byte.x48; Byte.x69; Byte.x0a] [] D A).
Defined.

(** X4. Under a single-byte decoder the conversion of a text in two
    pieces is the conversion of the first piece followed by that of the
    second: such a text can be converted in chunks cut anywhere. *)
Theorem single_byte_conversion_of_append :
  forall (env : iconv_env) (fuel : nat) (charset : string) (t : table)
         (text1 text2 output : list byte),
    dispatch charset = SingleByte t ->
    exists bytes1 bytes2,
      convert_to_utf8_ env fuel text1 charset output = Some (true, bytes1)
      /\ convert_to_utf8_ env fuel text2 charset output = Some (true, bytes2)
      /\ convert_to_utf8_ env fuel (text1 ++ text2) charset output
         = Some (true, bytes1 ++ bytes2).
Proof.
  intros env fuel charset t text1 text2 output D.
  do 2 eexists.
  split; [apply (convert_single_byte_result env fuel text1 charset output t D)|].
  split; [apply (convert_single_byte_result env fuel text2 charset output t D)|].
  rewrite (proj1 (convert_single_byte_result env fuel _ charset output t D)).
  rewrite map_app, utf8_of_app. reflexivity.
Qed.

Lemma single_byte_conversion_of_append_witness :
  dispatch "cp1252" = SingleByte Cp1252OrLatin1
  /\ exists bytes1 bytes2,
       convert_to_utf8_ no_iconv 0 [Byte.x80] "cp1252" [] = Some (true, bytes1)
       /\ convert_to_utf8_ no_iconv 0 [Byte.x41] "cp1252" [] = Some (true, bytes2)
       /\ convert_to_utf8_ no_iconv 0 ([Byte.x80] ++ [Byte.x41]) "cp1252" []
          = Some (true, bytes1 ++ bytes2).
Proof.
  assert (D : dispatch "cp1252" = SingleByte Cp1252OrLatin1) by reflexivity.
  split; [exact D|].
  exact (single_byte_conversion_of_append no_iconv 0%nat "cp1252" Cp1252OrLatin1
           [Byte.x80] [Byte.x41] [] D).
Defined.

(** *** Losslessness *)

Lemma in_all_bytes (b : byte) : In b all_bytes.
Proof.
  pose proof (byte.unsigned_range b) as R. change (2 ^ 8) with 256 in R.
  unfold all_bytes. apply in_map_iff.
  exists (Z.to_nat (byte.unsigned b)). split.
  - rewrite Z2Nat.id by lia. apply byte.of_Z_unsigned.
  - apply in_seq. lia.
Qed.

Lemma table_code_point_injective (t : table) (b1 b2 : byte) :
  table_code_point (table_entries t) (table_base t) b1
  = table_code_point (table_entries t) (table_base t) b2 ->
  b1 = b2.
Proof.
  assert (C : forallb (fun x =>
                forallb (fun y =>
                  implb (table_code_point (table_entries t) (table_base t) x
                         =? table_code_point (table_entries t) (table_base t) y)
                        (Byte.eqb x y)) all_bytes) all_bytes = true)
    by (destruct t; vm_compute; reflexivity).
  intros E.
  rewrite forallb_forall in C. specialize (C b1 (in_all_bytes b1)).
  rewrite forallb_forall in C. specialize (C b2 (in_all_bytes b2)).
  rewrite E, Z.eqb_refl in C. cbn [implb] in C.
  apply Byte.byte_dec_bl. exact C.
Qed.

(** The encoding of a code point can be read back from the front of a
    byte sequence. *)
Lemma to_utf8_prefix_free (a b : Z) (r1 r2 : list byte) :
  Utf8.in_code_space a -> Utf8.in_code_space b ->
  Unicode.to_utf8 a ++ r1 = Unicode.to_utf8 b ++ r2 -> a = b.
Proof.
  unfold Utf8.in_code_space. intros Ha Hb E.
  assert (CI : forall (x y : Z) (l m : list Z), x :: l = y :: m -> x = y /\ l = m)
    by (intros x y l m Q; injection Q; auto).
  apply (f_equal (map byte.unsigned)) in E.
  rewrite !map_app, !to_utf8_values in E by assumption.
  revert E.
  destruct (Z.ltb_spec a 0x80); [|destruct (Z.ltb_spec a 0x800); [|destruct (Z.ltb_spec a 0x10000)]];
    (destruct (Z.ltb_spec b 0x80); [|destruct (Z.ltb_spec b 0x800); [|destruct (Z.ltb_spec b 0x10000)]]);
    intros E; cbn [app] in E;
    repeat match type of E with
           | _ :: _ = _ :: _ =>
               let H := fresh "H" in
               apply CI in E; destruct E as [H E]
           end;
    Z.div_mod_to_equations; lia.
Qed.

Lemma utf8_of_injective (l1 : list Z) :
  forall l2, Forall Utf8.in_code_space l1 -> Forall Utf8.in_code_space l2 ->
  utf8_of l1 = utf8_of l2 -> l1 = l2.
Proof.
  unfold utf8_of.
  induction l1 as [|a l1 IH]; intros l2 F1 F2 E.
  - destruct l2 as [|b l2]; [reflexivity|].
    cbn [flat_map] in E. pose proof (to_utf8_length b) as L.
    apply (f_equal (@length byte)) in E. rewrite length_app in E. cbn in E. lia.
  - destruct l2 as [|b l2].
    + cbn [flat_map] in E. pose proof (to_utf8_length a) as L.
      apply (f_equal (@length byte)) in E. rewrite length_app in E. cbn in E. lia.
    + cbn [flat_map] in E.
      inversion F1 as [|? ? Ha F1']; subst. inversion F2 as [|? ? Hb F2']; subst.
      assert (a = b) by (eapply to_utf8_prefix_free; eassumption).
      subst b. apply app_inv_head in E.
      f_equal. apply IH; assumption.
Qed.

(** X5. A single-byte decoder loses nothing: two texts with the same
    conversion are the same text.  (The tables map the 256 byte values to
    256 different code points.) *)
Theorem single_byte_conversion_injective :
  forall (env : iconv_env) (fuel : nat) (charset : string) (t : table)
         (text1 text2 output : list byte),
    dispatch charset = SingleByte t ->
    convert_to_utf8_ env fuel text1 charset output
    = convert_to_utf8_ env fuel text2 charset output ->
    text1 = text2.
Proof.
  intros env fuel charset t text1 text2 output D E.
  rewrite !(proj1 (convert_single_byte_result env fuel _ charset output t D)) in E.
  injection E as E.
  apply utf8_of_injective in E.
  - revert text2 E. induction text1 as [|b1 l1 IH]; intros [|b2 l2] E;
      try discriminate E; [reflexivity|].
    cbn [map] in E. injection E as Hb Hl.
    apply table_code_point_injective in Hb. subst b2.
    f_equal. apply IH. exact Hl.
  - apply Forall_forall. intros ch Hin. apply in_map_iff in Hin.
    destruct Hin as (b & <- & _). apply table_code_point_good.
  - apply Forall_forall. intros ch Hin. apply in_map_iff in Hin.
    destruct Hin as (b & <- & _). apply table_code_point_good.
Qed.

Lemma single_byte_conversion_injective_witness :
  dispatch "8859-1" = SingleByte Cp1252OrLatin1
  /\ [Byte.x80; Byte.xff] = [Byte.x80; Byte.xff].
Proof.
  assert (D : dispatch "8859-1" = SingleByte Cp1252OrLatin1) by reflexivity.
  split; [exact D|].
  exact (single_byte_conversion_injective no_iconv 0%nat "8859-1" Cp1252OrLatin1
           [Byte.x80; Byte.xff] [Byte.x80; Byte.xff] [] D eq_refl).
Defined.

(** *** Where the two tables agree *)

Lemma tables_agree_iff (b : byte) :
  tables_agree b = true <-> ~ In (byte.unsigned b) differing_bytes.
Proof.
  assert (C : forallb (fun x =>
                Bool.eqb (tables_agree x)
                  (negb (existsb (Z.eqb (byte.unsigned x)) differing_bytes)))
                all_bytes = true) by (vm_compute; reflexivity).
  rewrite forallb_forall in C. specialize (C b (in_all_bytes b)).
  apply Bool.eqb_prop in C. rewrite C.
  rewrite negb_true_iff, <- not_true_iff_false, existsb_exists. split.
  - intros N Hin. apply N. exists (byte.unsigned b). split; [exact Hin | apply Z.eqb_refl].
  - intros N (x & Hin & Hx). apply Z.eqb_eq in Hx. subst x. contradiction.
Qed.

(** X6. The cp1252 decoder and the iso-8859-15 decoder give different
    code points for exactly 35 byte values: 80, 82-8C, 8E, 91-9C, 9E, 9F
    and A4, A6, A8, B4, B8, BC, BD, BE.  A text without these bytes has the
    same conversion under both. *)
Theorem cp1252_and_iso8859_15_agree :
  (forall b : byte,
      table_code_point cp1252_to_unicode 128 b
      = table_code_point iso8859_15_to_unicode 164 b
      <-> ~ In (byte.unsigned b) differing_bytes)
  /\ (forall (env : iconv_env) (fuel : nat) (c1 c2 : string) (text output : list byte),
        dispatch c1 = SingleByte Cp1252OrLatin1 ->
        dispatch c2 = SingleByte Iso8859_15 ->
        Forall (fun b => ~ In (byte.unsigned b) differing_bytes) text ->
        convert_to_utf8_ env fuel text c1 output
        = convert_to_utf8_ env fuel text c2 output).
Proof.
  split.
  - intros b. rewrite <- tables_agree_iff. unfold tables_agree.
    rewrite Z.eqb_eq. tauto.
  - intros env fuel c1 c2 text output D1 D2 A.
    rewrite (proj1 (convert_single_byte_result env fuel text c1 output _ D1)).
    rewrite (proj1 (convert_single_byte_result env fuel text c2 output _ D2)).
    do 3 f_equal. cbn [table_entries table_base].
    induction A as [|b l Hb _ IH]; [reflexivity|].
    cbn [map]. apply tables_agree_iff in Hb.
    unfold tables_agree in Hb. apply Z.eqb_eq in Hb.
    rewrite Hb, IH. reflexivity.
Qed.

Lemma cp1252_and_iso8859_15_agree_witness :
  dispatch "cp1252" = SingleByte Cp1252OrLatin1
  /\ dispatch "iso-8859-15" = SingleByte Iso8859_15
  /\ Forall (fun b => ~ In (byte.unsigned b) differing_bytes)
       [Byte.x41; Byte.xe9; Byte.xa5]
  /\ convert_to_utf8_ no_iconv 0 [Byte.x41; Byte.xe9; Byte.xa5] "cp1252" []
     = convert_to_utf8_ no_iconv 0 [Byte.x41; Byte.xe9; Byte.xa5] "iso-8859-15" [].
Proof.
  assert (D1 : dispatch "cp1252" = SingleByte Cp1252OrLatin1) by reflexivity.
  assert (D2 : dispatch "iso-8859-15" = SingleByte Iso8859_15) by reflexivity.
  assert (A : Forall (fun b => ~ In (byte.unsigned b) differing_bytes)
                [Byte.x41; Byte.xe9; Byte.xa5]).
  { repeat constructor; apply tables_agree_iff; reflexivity. }
  split; [exact D1|]. split; [exact D2|]. split; [exact A|].
  exact (proj2 cp1252_and_iso8859_15_agree no_iconv 0%nat "cp1252" "iso-8859-15"
           [Byte.x41; Byte.xe9; Byte.xa5] [] D1 D2 A).
Defined.

(** ** The UTF-16 decoder on valid UTF-16 *)

Lemma unit_bytes_unit16 (big_endian : bool) (u : Z) :
  0 <= u <= 0xffff ->
  exists c c2, unit_bytes big_endian u = [c; c2] /\ unit16 big_endian c c2 = u.
Proof.
  intros H.
  assert (Hq : byte.unsigned (byte.of_Z (Z.shiftr u 8)) = u / 256).
  { rewrite Z.shiftr_div_pow2 by lia. change (2 ^ 8) with 256.
    apply unsigned_of_Z_small. Z.div_mod_to_equations; lia. }
  assert (Hr : byte.unsigned (byte.of_Z (Z.land u 0xff)) = u mod 256).
  { change 0xff with (Z.ones 8). rewrite Z.land_ones by lia. change (2 ^ 8) with 256.
    apply unsigned_of_Z_small. apply Z.mod_pos_bound. lia. }
  unfold unit_bytes. destruct big_endian; do 2 eexists; (split; [reflexivity|]);
    rewrite unit16_value, Hq, Hr; Z.div_mod_to_equations; lia.
Qed.

Lemma utf16_scalars_cons (big_endian : bool) (ch : Z) (l : list byte) :
  utf16_loop collect big_endian l [ch] = option_map (cons ch) (utf16_scalars big_endian l).
Proof.
  rewrite (utf16_collect_acc big_endian (length l) l [ch] (le_n _)).
  unfold utf16_scalars. destruct (utf16_loop collect big_endian l []); reflexivity.
Qed.

(** Decoding the reference encoding of scalar values gives them back. *)
Lemma utf16_scalars_encode (big_endian : bool) (scalars : list Z) :
  Forall scalar_value scalars ->
  utf16_scalars big_endian (utf16_encode big_endian scalars) = Some scalars.
Proof.
  induction 1 as [|ch l [Hc Hs] _ IH]; [reflexivity|].
  unfold Utf8.in_code_space in Hc. unfold Utf8.is_surrogate in Hs.
  unfold utf16_encode in *. cbn [flat_map].
  set (tail := flat_map _ l) in *.
  unfold utf16_units.
  destruct (Z.ltb_spec ch 0x10000) as [Lt | Ge].
  - cbn [flat_map]. rewrite app_nil_r.
    destruct (unit_bytes_unit16 big_endian ch) as (c & c2 & -> & U); [lia|].
    cbn [app]. unfold utf16_scalars.
    rewrite utf16_step_plain.
    + rewrite U. unfold collect at 1. cbn [app].
      rewrite (utf16_scalars_cons big_endian ch tail). unfold utf16_scalars in IH.
      unfold utf16_scalars. rewrite IH. reflexivity.
    + rewrite U. unfold high_surrogate. intros [H1 H2].
      destruct (Z.leb_spec 0xd800 ch); [|lia].
      destruct (Z.leb_spec ch 0xdfff); [discriminate Hs | lia].
  - cbn [flat_map]. rewrite app_nil_r.
    set (x := ch - 0x10000). assert (Hx : 0 <= x < 1048576) by (unfold x; lia).
    rewrite Z.shiftr_div_pow2 by lia. rewrite land_0x3ff. change (2 ^ 10) with 1024.
    destruct (unit_bytes_unit16 big_endian (0xd800 + x / 1024)) as (c & c2 & -> & U1);
      [Z.div_mod_to_equations; lia|].
    destruct (unit_bytes_unit16 big_endian (0xdc00 + x mod 1024)) as (d & d2 & -> & U2);
      [Z.div_mod_to_equations; lia|].
    cbn [app]. unfold utf16_scalars.
    rewrite utf16_step_pair
      by (rewrite ?U1, ?U2; unfold high_surrogate, low_surrogate;
          Z.div_mod_to_equations; lia).
    rewrite U1, U2, !land_0x3ff, Z.shiftl_mul_pow2 by lia. change (2 ^ 10) with 1024.
    replace (0x10000 + (0xd800 + x / 1024) mod 1024 * 1024 + (0xdc00 + x mod 1024) mod 1024)
      with ch by (unfold x; Z.div_mod_to_equations; lia).
    unfold collect at 1. cbn [app].
    rewrite (utf16_scalars_cons big_endian ch tail). unfold utf16_scalars in IH.
    unfold utf16_scalars. rewrite IH. reflexivity.
Qed.

Lemma utf16_encode_even (big_endian : bool) (scalars : list Z) :
  Nat.even (length (utf16_encode big_endian scalars)) = true.
Proof.
  unfold utf16_encode.
  induction scalars as [|ch l IH]; [reflexivity|].
  cbn [flat_map]. rewrite length_app, Nat.even_add, IH.
  unfold utf16_units, unit_bytes.
  destruct (ch <? 0x10000); destruct big_endian; reflexivity.
Qed.

Lemma utf16_encode_length (big_endian : bool) (ch : Z) (scalars : list Z) :
  (2 <= length (utf16_encode big_endian (ch :: scalars)))%nat.
Proof.
  unfold utf16_encode. cbn [flat_map]. rewrite length_app.
  unfold utf16_units, unit_bytes.
  destruct (ch <? 0x10000); destruct big_endian; cbn [flat_map app length]; lia.
Qed.

Lemma span_whole (l : list byte) :
  Nat.even (length l) = true -> span 0 (utf16_text_end l) l = l.
Proof.
  intros E. unfold span, utf16_text_end, Nat.odd. rewrite E. cbn [negb skipn].
  apply firstn_all.
Qed.

Lemma utf16_valid_result (big_endian : bool) (scalars : list Z) :
  Forall scalar_value scalars ->
  converted (utf16_loop encode big_endian
               (span 0 (utf16_text_end (utf16_encode big_endian scalars))
                  (utf16_encode big_endian scalars)) staging_init)
  = Some (true, utf8_of scalars).
Proof.
  intros F.
  rewrite span_whole by apply utf16_encode_even.
  destruct (utf16_loop_result big_endian (utf16_encode big_endian scalars)
              (utf16_encode_even big_endian scalars))
    as (scs & s & E & _ & L & _ & P).
  rewrite utf16_scalars_encode in E by exact F. injection E as <-.
  rewrite L. cbn [converted]. rewrite P. reflexivity.
Qed.

(** X7. Valid UTF-16 is transcoded: for a label that names the byte
    order, the UTF-16 encoding (RFC 2781) in that byte order of a
    non-empty sequence of Unicode scalar values is converted to the UTF-8
    encoding of the same sequence; for a label that leaves the byte order
    open, the same holds for an encoding in either byte order preceded by
    its byte-order mark. *)
Theorem valid_utf16_is_transcoded :
  forall (env : iconv_env) (fuel : nat) (charset : string) (output : list byte)
         (scalars : list Z),
    Forall scalar_value scalars ->
    (dispatch charset = Utf16 BigEndian -> scalars <> [] ->
     convert_to_utf8_ env fuel (utf16_encode true scalars) charset output
     = Some (true, utf8_of scalars))
    /\ (dispatch charset = Utf16 LittleEndian -> scalars <> [] ->
        convert_to_utf8_ env fuel (utf16_encode false scalars) charset output
        = Some (true, utf8_of scalars))
    /\ (dispatch charset = Utf16 DetectFromBOMOrDefaultBE ->
        convert_to_utf8_ env fuel
          (Byte.xfe :: Byte.xff :: utf16_encode true scalars) charset output
        = Some (true, utf8_of scalars)
        /\ convert_to_utf8_ env fuel
             (Byte.xff :: Byte.xfe :: utf16_encode false scalars) charset output
           = Some (true, utf8_of scalars)).
Proof.
  intros env fuel charset output scalars F.
  split; [|split].
  - intros D N. destruct scalars as [|ch l]; [contradiction N; reflexivity|].
    rewrite (convert_utf16_at env fuel _ charset output _ true 0 D)
      by (first [apply utf16_encode_length | reflexivity]).
    apply utf16_valid_result. exact F.
  - intros D N. destruct scalars as [|ch l]; [contradiction N; reflexivity|].
    rewrite (convert_utf16_at env fuel _ charset output _ false 0 D)
      by (first [apply utf16_encode_length | reflexivity]).
    apply utf16_valid_result. exact F.
  - intros D. split.
    + rewrite (convert_utf16_at env fuel _ charset output _ true 2 D)
        by (first [cbn [length]; lia | reflexivity]).
      rewrite span_cons2_skip. apply utf16_valid_result. exact F.
    + rewrite (convert_utf16_at env fuel _ charset output _ false 2 D)
        by (first [cbn [length]; lia | reflexivity]).
      rewrite span_cons2_skip. apply utf16_valid_result. exact F.
Qed.

Lemma valid_utf16_is_transcoded_witness :
  Forall scalar_value [0x41; 0x20ac; 0x1f600]
  /\ dispatch "UTF-16LE" = Utf16 LittleEndian
  /\ utf16_encode false [0x41; 0x20ac; 0x1f600]
     = [Byte.x41; Byte.x00; Byte.xac; Byte.x20; Byte.x3d; Byte.xd8; Byte.x00; Byte.xde]
  /\ convert_to_utf8_ no_iconv 0 (utf16_encode false [0x41; 0x20ac; 0x1f600]) "UTF-16LE" []
     = Some (true, utf8_of [0x41; 0x20ac; 0x1f600]).
Proof.
  assert (F : Forall scalar_value [0x41; 0x20ac; 0x1f600]).
  { repeat constructor; unfold Utf8.in_code_space; lia. }
  assert (D : dispatch "UTF-16LE" = Utf16 LittleEndian) by reflexivity.
  assert (N : [0x41; 0x20ac; 0x1f600] <> []) by discriminate.
  split; [exact F|]. split; [exact D|]. split; [vm_compute; reflexivity|].
  exact (proj1 (proj2 (valid_utf16_is_transcoded no_iconv 0%nat "UTF-16LE" []
                         [0x41; 0x20ac; 0x1f600] F)) D N).
Defined.

(** ** The two byte orders *)

Lemma utf16_loop_swap {S : Type} (emit : Z -> S -> option S) (n : nat) :
  forall l s, (length l <= n)%nat ->
  utf16_loop emit false l s = utf16_loop emit true (swap_pairs l) s.
Proof.
  induction n as [|n IH]; intros l s Hl.
  - destruct l; [reflexivity | cbn in Hl; lia].
  - destruct l as [|c [|c2 rest]]; [reflexivity | reflexivity |].
    cbn [swap_pairs utf16_loop].
    change (unit16 false c c2) with (unit16 true c2 c).
    destruct (Z.shiftr (unit16 true c2 c) 10 =? Z.shiftr 55296 10).
    + destruct rest as [|d [|d2 rest']]; [reflexivity | reflexivity |].
      cbn [swap_pairs].
      change (unit16 false d d2) with (unit16 true d2 d).
      destruct (emit _ s); [|reflexivity].
      apply IH. cbn in Hl. lia.
    + destruct (emit _ s); [|reflexivity].
      apply IH. cbn in Hl. lia.
Qed.

Lemma swap_pairs_length (n : nat) :
  forall l, (length l <= n)%nat -> length (swap_pairs l) = length l.
Proof.
  induction n as [|n IH]; intros l Hl.
  - destruct l; [reflexivity | cbn in Hl; lia].
  - destruct l as [|a [|b r]]; [reflexivity | reflexivity |].
    cbn [swap_pairs length]. rewrite IH by (cbn in Hl; lia). reflexivity.
Qed.

Lemma swap_pairs_firstn (k : nat) :
  forall l, firstn (2 * k) (swap_pairs l) = swap_pairs (firstn (2 * k) l).
Proof.
  induction k as [|k IH]; intros l; [reflexivity|].
  replace (2 * Datatypes.S k)%nat with (Datatypes.S (Datatypes.S (2 * k))) by lia.
  destruct l as [|a [|b r]]; [reflexivity | reflexivity |].
  cbn [swap_pairs firstn]. rewrite IH. reflexivity.
Qed.

Lemma span_swap_pairs (l : list byte) :
  span 0 (utf16_text_end (swap_pairs l)) (swap_pairs l)
  = swap_pairs (span 0 (utf16_text_end l) l).
Proof.
  unfold span. cbn [skipn].
  assert (E : utf16_text_end (swap_pairs l) = utf16_text_end l).
  { unfold utf16_text_end. rewrite (swap_pairs_length (length l) l (le_n _)). reflexivity. }
  rewrite E.
  destruct (utf16_text_end_even l) as [He _].
  apply Nat.even_spec in He. destruct He as [k ->].
  apply swap_pairs_firstn.
Qed.

(** X8. The two byte orders mirror each other: a text under a
    little-endian label has the result of the text with the two bytes of
    every unit exchanged under a big-endian label. *)
Theorem little_endian_is_swapped_big_endian :
  forall (env : iconv_env) (fuel : nat) (c1 c2 : string) (text output : list byte),
    dispatch c1 = Utf16 LittleEndian ->
    dispatch c2 = Utf16 BigEndian ->
    convert_to_utf8_ env fuel text c1 output
    = convert_to_utf8_ env fuel (swap_pairs text) c2 output.
Proof.
  intros env fuel c1 c2 text output D1 D2.
  pose proof (swap_pairs_length (length text) text (le_n _)) as Len.
  destruct (Nat.lt_ge_cases (length text) 2) as [L | L].
  - unfold convert_to_utf8_.
    rewrite !convert_utf16_short
      by (rewrite ?Len; try exact L; eapply dispatch_utf16_prefixed; eassumption).
    reflexivity.
  - rewrite (convert_utf16_at env fuel text c1 output _ false 0 D1 L eq_refl).
    rewrite (convert_utf16_at env fuel (swap_pairs text) c2 output _ true 0 D2)
      by (rewrite ?Len; try exact L; reflexivity).
    rewrite span_swap_pairs.
    rewrite (utf16_loop_swap encode (length (span 0 (utf16_text_end text) text)))
      by lia.
    reflexivity.
Qed.

Lemma little_endian_is_swapped_big_endian_witness :
  dispatch "ucs-2le" = Utf16 LittleEndian
  /\ dispatch "ucs-2be" = Utf16 BigEndian
  /\ convert_to_utf8_ no_iconv 0 [Byte.xac; Byte.x20; Byte.x41] "ucs-2le" []
     = convert_to_utf8_ no_iconv 0 (swap_pairs [Byte.xac; Byte.x20; Byte.x41]) "ucs-2be" [].
Proof.
  assert (D1 : dispatch "ucs-2le" = Utf16 LittleEndian) by reflexivity.
  assert (D2 : dispatch "ucs-2be" = Utf16 BigEndian) by reflexivity.
  split; [exact D1|]. split; [exact D2|].
  exact (little_endian_is_swapped_big_endian no_iconv 0%nat "ucs-2le" "ucs-2be"
           [Byte.xac; Byte.x20; Byte.x41] [] D1 D2).
Defined.

(** ** The size of the output of the UTF-16 decoder *)

Lemma utf16_scalars_size (big_endian : bool) (n : nat) :
  forall l scalars, (length l <= n)%nat ->
  utf16_scalars big_endian l = Some scalars ->
  (2 * length (utf8_of scalars) <= 3 * length l)%nat.
Proof.
  unfold utf16_scalars.
  induction n as [|n IH]; intros l scalars Hl E.
  - destruct l; [|cbn in Hl; lia]. injection E as <-. cbn. lia.
  - destruct l as [|c [|c2 rest]]; [injection E as <-; cbn; lia | discriminate E |].
    cbn [length] in Hl.
    destruct (Z.shiftr (unit16 big_endian c c2) 10 =? Z.shiftr 0xd800 10) eqn:T.
    + apply high_test in T.
      destruct rest as [|d [|d2 rest']].
      * rewrite utf16_step_last_high in E by exact T. injection E as <-. cbn. lia.
      * cbn [utf16_loop] in E. apply high_test in T. rewrite T in E. discriminate E.
      * cbn [utf16_loop] in E. apply high_test in T. rewrite T in E.
        unfold collect at 1 in E. cbn [app] in E.
        rewrite (utf16_scalars_cons big_endian _ rest') in E.
        unfold utf16_scalars in E.
        destruct (utf16_loop collect big_endian rest' []) as [scs|] eqn:R;
          [|discriminate E].
        injection E as <-.
        specialize (IH rest' scs ltac:(cbn in Hl; lia) R).
        unfold utf8_of in *. cbn [flat_map length]. rewrite length_app.
        match goal with |- context [Unicode.to_utf8 ?x] =>
          pose proof (to_utf8_length x) end.
        lia.
    + assert (NH : ~ high_surrogate (unit16 big_endian c c2)).
      { intros H. apply high_test in H. rewrite H in T. discriminate T. }
      rewrite utf16_step_plain in E by exact NH.
      unfold collect at 1 in E. cbn [app] in E.
      rewrite (utf16_scalars_cons big_endian _ rest) in E.
      unfold utf16_scalars in E.
      destruct (utf16_loop collect big_endian rest []) as [scs|] eqn:R;
        [|discriminate E].
      injection E as <-.
      specialize (IH rest scs ltac:(lia) R).
      unfold utf8_of in *. cbn [flat_map length]. rewrite length_app.
      pose proof (unit16_range big_endian c c2).
      pose proof (to_utf8_length_bmp (unit16 big_endian c c2) ltac:(lia)).
      lia.
Qed.

(** X9. The UTF-16 decoder never makes the text grow by more than half:
    for a text of two bytes or more the output has at most three bytes for
    every two bytes of the text. *)
Theorem utf16_output_length :
  forall (env : iconv_env) (fuel : nat) (charset : string) (e : endianness)
         (text output : list byte),
    dispatch charset = Utf16 e -> (2 <= length text)%nat ->
    exists bytes,
      convert_to_utf8_ env fuel text charset output = Some (true, bytes)
      /\ (2 * length bytes <= 3 * length text)%nat.
Proof.
  intros env fuel charset e text output D L.
  unfold convert_to_utf8_.
  rewrite (convert_utf16 env encode fuel text charset output e D L).
  set (be := fst (byte_order_of e text)). set (i := snd (byte_order_of e text)).
  assert (Hi : i = 0%nat \/ (i = 2%nat /\ (2 <= length text)%nat)).
  { unfold i, byte_order_of. destruct e; cbn [snd]; auto.
    destruct (startswith text _); [cbn [snd]; auto|].
    destruct (startswith text _); cbn [snd]; auto. }
  destruct (utf16_loop_result be (span i (utf16_text_end text) text) (span_even i text Hi))
    as (scs & s & E & _ & Lp & _ & P).
  rewrite Lp. cbn [converted]. rewrite P.
  eexists. split; [reflexivity|].
  pose proof (utf16_scalars_size be _ _ scs (le_n _) E) as B.
  rewrite span_length in B.
  destruct (utf16_text_end_even text) as [_ Hle]. lia.
Qed.

Lemma utf16_output_length_witness :
  dispatch "utf-16be" = Utf16 BigEndian
  /\ (2 <= length [Byte.x20; Byte.xac; Byte.x00; Byte.x41])%nat
  /\ exists bytes,
       convert_to_utf8_ no_iconv 0 [Byte.x20; Byte.xac; Byte.x00; Byte.x41] "utf-16be" []
       = Some (true, bytes)
       /\ (2 * length bytes <= 3 * 4)%nat.
Proof.
  assert (D : dispatch "utf-16be" = Utf16 BigEndian) by reflexivity.
  assert (L : (2 <= length [Byte.x20; Byte.xac; Byte.x00; Byte.x41])%nat) by (simpl; lia).
  split; [exact D|]. split; [exact L|].
  exact (utf16_output_length no_iconv 0%nat "utf-16be" BigEndian
           [Byte.x20; Byte.xac; Byte.x00; Byte.x41] [] D L).
Defined.

(** ** The external conversion loop *)

Lemma iconv_loop_fuel (env : iconv_env) (fuel : nat) :
  forall fuel' conv input tmp r,
    (fuel <= fuel')%nat ->
    iconv_loop env fuel conv input tmp = Some r ->
    iconv_loop env fuel' conv input tmp = Some r.
Proof.
  induction fuel as [|fuel IH]; intros fuel' conv input tmp r Le E.
  - destruct input; [|discriminate E]. destruct fuel'; exact E.
  - destruct input as [|x input]; [destruct fuel'; exact E|].
    destruct fuel' as [|fuel']; [lia|].
    cbn [iconv_loop] in *.
    destruct (ic_failed _ && negb (ic_e2big _)); [exact E|].
    apply IH; [lia | exact E].
Qed.

Lemma iconv_loop_ends (env : iconv_env) :
  iconv_consumes env ->
  forall fuel conv input tmp,
    (length input <= fuel)%nat ->
    exists r, iconv_loop env fuel conv input tmp = Some r.
Proof.
  intros P. induction fuel as [|fuel IH]; intros conv input tmp Le.
  - destruct input; [exists tmp; reflexivity | cbn in Le; lia].
  - destruct input as [|x input]; [exists tmp; reflexivity|].
    cbn [iconv_loop].
    destruct (P conv (x :: input) ltac:(discriminate)) as [H | H].
    + rewrite H. exists tmp. reflexivity.
    + destruct (ic_failed _ && negb (ic_e2big _)); [exists tmp; reflexivity|].
      apply IH. cbn [length] in Le, H. lia.
Qed.

(** The conversion has no defined result only when the external loop
    has none. *)
Lemma convert_undefined_by_iconv (env : iconv_env) (fuel : nat) (text : list byte)
    (charset : string) (output : list byte) :
  convert_to_utf8_ env fuel text charset output = None ->
  dispatch charset = Generic
  /\ try_iconv env fuel text charset output = None.
Proof.
  intros N.
  destruct (dispatch charset) as [|e|t|] eqn:D.
  - unfold convert_to_utf8_ in N. rewrite convert_passthrough in N by exact D.
    discriminate N.
  - destruct (Nat.lt_ge_cases (length text) 2) as [L | L].
    + unfold convert_to_utf8_ in N.
      rewrite convert_utf16_short in N
        by (try exact L; apply (dispatch_utf16_prefixed _ e D)).
      discriminate N.
    + destruct (convert_utf16_defined env fuel text charset output e D L)
        as (scs & _ & E & _).
      rewrite E in N. discriminate N.
  - rewrite (proj1 (convert_single_byte_result env fuel text charset output t D)) in N.
    discriminate N.
  - split; [reflexivity|].
    unfold convert_to_utf8_ in N. rewrite convert_generic in N by exact D.
    destruct (utf16_prefixed charset && (length text <? 2)%nat);
      [discriminate N | exact N].
Qed.

Lemma try_iconv_fuel (env : iconv_env) (fuel fuel' : nat) (text : list byte)
    (charset : string) (output : list byte) (r : bool * list byte) :
  (fuel <= fuel')%nat ->
  try_iconv env fuel text charset output = Some r ->
  try_iconv env fuel' text charset output = Some r.
Proof.
  intros Le. unfold try_iconv.
  destruct (HAVE_ICONV env); [|auto].
  destruct (iconv_open env "UTF-8" (c_str charset)) as [conv|]; [|auto].
  destruct (iconv_loop env fuel conv text []) as [tmp|] eqn:E; [|discriminate].
  rewrite (iconv_loop_fuel env fuel fuel' conv text [] tmp Le E). auto.
Qed.

(** X10. The external loop: a result of the conversion, once there is
    one, is the same for every larger bound on the number of iconv calls;
    and when every call that does not stop the loop consumes input, the
    conversion has a result as soon as the bound is the length of the
    text. *)
Theorem external_loop_result :
  forall (env : iconv_env) (text : list byte) (charset : string) (output : list byte),
    (forall (fuel fuel' : nat) (r : bool * list byte),
        (fuel <= fuel')%nat ->
        convert_to_utf8_ env fuel text charset output = Some r ->
        convert_to_utf8_ env fuel' text charset output = Some r)
    /\ (iconv_consumes env ->
        forall fuel : nat, (length text <= fuel)%nat ->
        exists r, convert_to_utf8_ env fuel text charset output = Some r).
Proof.
  intros env text charset output. split.
  - intros fuel fuel' r Le E.
    unfold convert_to_utf8_, convert_with in *.
    destruct (already_utf8 charset); [exact E|].
    destruct (utf_prefix (c_str charset)) as [[[] p]|].
    + destruct (length text <? 2)%nat; [exact E|].
      destruct (utf16_byte_order p text) as [[be i]|]; [exact E|].
      exact (try_iconv_fuel env fuel fuel' text charset output r Le E).
    + destruct (legacy_label p); try exact E.
      exact (try_iconv_fuel env fuel fuel' text charset output r Le E).
    + exact (try_iconv_fuel env fuel fuel' text charset output r Le E).
  - intros P fuel Le.
    destruct (convert_to_utf8_ env fuel text charset output) as [r|] eqn:E;
      [exists r; reflexivity|].
    apply convert_undefined_by_iconv in E. destruct E as [_ E].
    unfold try_iconv in E.
    destruct (HAVE_ICONV env); [|discriminate E].
    destruct (iconv_open env "UTF-8" (c_str charset)) as [conv|]; [|discriminate E].
    destruct (iconv_loop_ends env P fuel conv text [] Le) as [tmp T].
    rewrite T in E. discriminate E.
Qed.

Lemma copy_iconv_consumes : iconv_consumes copy_iconv.
Proof.
  intros conv input Hne. right.
  cbn [copy_iconv iconv ic_in]. rewrite length_skipn.
  destruct input; [contradiction Hne; reflexivity|].
  unfold sizeof_buf. cbn [length]. lia.
Qed.

Lemma external_loop_result_witness :
  iconv_consumes copy_iconv
  /\ (length [Byte.x41; Byte.x42] <= 2)%nat
  /\ convert_to_utf8_ copy_iconv 2 [Byte.x41; Byte.x42] "koi8-r" []
     = Some (true, [Byte.x41; Byte.x42])
  /\ convert_to_utf8_ copy_iconv 5 [Byte.x41; Byte.x42] "koi8-r" []
     = Some (true, [Byte.x41; Byte.x42])
  /\ exists r, convert_to_utf8_ copy_iconv 2 [Byte.x41; Byte.x42] "koi8-r" [] = Some r.
Proof.
  assert (P : iconv_consumes copy_iconv) by exact copy_iconv_consumes.
  assert (L : (length [Byte.x41; Byte.x42] <= 2)%nat) by (simpl; lia).
  assert (E : convert_to_utf8_ copy_iconv 2 [Byte.x41; Byte.x42] "koi8-r" []
              = Some (true, [Byte.x41; Byte.x42])) by reflexivity.
  assert (Le : (2 <= 5)%nat) by lia.
  split; [exact P|]. split; [exact L|]. split; [exact E|].
  split.
  - exact (proj1 (external_loop_result copy_iconv [Byte.x41; Byte.x42] "koi8-r" [])
             2%nat 5%nat _ Le E).
  - exact (proj2 (external_loop_result copy_iconv [Byte.x41; Byte.x42] "koi8-r" [])
             P 2%nat L).
Defined.

(** X11. The external facility is used on a best-effort basis: for a
    label that selects it and a descriptor that opens, an empty text is
    converted to the empty output, and so is a text on which the first
    call fails with an error other than E2BIG, whatever that call wrote;
    in both cases the function returns true.  (A label that starts like a
    UTF-16 name reaches the facility for texts of two bytes or more
    only.) *)
Theorem external_conversion_best_effort :
  forall (env : iconv_env) (fuel : nat) (text : list byte) (charset : string)
         (output : list byte) (conv : iconv_t env),
    dispatch charset = Generic ->
    utf16_prefixed charset = false \/ (2 <= length text)%nat ->
    HAVE_ICONV env = true ->
    iconv_open env "UTF-8" (c_str charset) = Some conv ->
    (text = [] -> convert_to_utf8_ env fuel text charset output = Some (true, []))
    /\ (text <> [] ->
        ic_failed (iconv env conv text sizeof_buf) = true ->
        ic_e2big (iconv env conv text sizeof_buf) = false ->
        convert_to_utf8_ env (Datatypes.S fuel) text charset output = Some (true, [])).
Proof.
  intros env fuel text charset output conv D R H O.
  assert (G : forall f, convert_to_utf8_ env f text charset output
                        = try_iconv env f text charset output).
  { intros f. unfold convert_to_utf8_. rewrite convert_generic by exact D.
    destruct R as [R | R].
    - rewrite R. reflexivity.
    - destruct (Nat.ltb_spec (length text) 2) as [L | L]; [lia|].
      rewrite andb_false_r. reflexivity. }
  split.
  - intros ->. rewrite G. unfold try_iconv. rewrite H, O.
    destruct fuel; reflexivity.
  - intros N F B. rewrite G. unfold try_iconv. rewrite H, O.
    destruct text as [|x text]; [contradiction N; reflexivity|].
    cbn [iconv_loop]. rewrite F, B. reflexivity.
Qed.

Lemma external_conversion_best_effort_witness :
  dispatch "koi8-r" = Generic
  /\ (utf16_prefixed "koi8-r" = false \/ (2 <= length [Byte.x41; Byte.xff])%nat)
  /\ HAVE_ICONV failing_iconv = true
  /\ iconv_open failing_iconv "UTF-8" (c_str "koi8-r") = Some tt
  /\ [Byte.x41; Byte.xff] <> []
  /\ ic_failed (iconv failing_iconv tt [Byte.x41; Byte.xff] sizeof_buf) = true
  /\ ic_e2big (iconv failing_iconv tt [Byte.x41; Byte.xff] sizeof_buf) = false
  /\ ic_out (iconv failing_iconv tt [Byte.x41; Byte.xff] sizeof_buf) = [Byte.x41]
  /\ convert_to_utf8_ failing_iconv 1 [Byte.x41; Byte.xff] "koi8-r" [Byte.x5a]
     = Some (true, [])
  /\ convert_to_utf8_ failing_iconv 0 [] "koi8-r" [Byte.x5a] = Some (true, []).
Proof.
  assert (D : dispatch "koi8-r" = Generic) by reflexivity.
  assert (R : utf16_prefixed "koi8-r" = false \/ (2 <= length [Byte.x41; Byte.xff])%nat)
    by (left; reflexivity).
  assert (R0 : utf16_prefixed "koi8-r" = false \/ (2 <= length (@nil byte))%nat)
    by (left; reflexivity).
  assert (H : HAVE_ICONV failing_iconv = true) by reflexivity.
  assert (O : iconv_open failing_iconv "UTF-8" (c_str "koi8-r") = Some tt) by reflexivity.
  assert (N : [Byte.x41; Byte.xff] <> []) by discriminate.
  assert (F : ic_failed (iconv failing_iconv tt [Byte.x41; Byte.xff] sizeof_buf) = true)
    by reflexivity.
  assert (B : ic_e2big (iconv failing_iconv tt [Byte.x41; Byte.xff] sizeof_buf) = false)
    by reflexivity.
  split; [exact D|]. split; [exact R|]. split; [exact H|]. split; [exact O|].
  split; [exact N|]. split; [exact F|]. split; [exact B|]. split; [reflexivity|].
  split.
  - exact (proj2 (external_conversion_best_effort failing_iconv 0%nat
                    [Byte.x41; Byte.xff] "koi8-r" [Byte.x5a] tt D R H O) N F B).
  - exact (proj1 (external_conversion_best_effort failing_iconv 0%nat [] "koi8-r"
                    [Byte.x5a] tt D R0 H O) eq_refl).
Defined.

(** ** The output parameter *)

Lemma try_iconv_output (env : iconv_env) (fuel : nat) (text : list byte)
    (charset : string) (output : list byte) :
  try_iconv env fuel text charset output
  = match try_iconv env fuel text charset [] with
    | Some (true, bytes) => Some (true, bytes)
    | Some (false, _) => Some (false, output)
    | None => None
    end.
Proof.
  unfold try_iconv.
  destruct (HAVE_ICONV env); [|reflexivity].
  destruct (iconv_open env "UTF-8" (c_str charset)) as [conv|]; [|reflexivity].
  destruct (iconv_loop env fuel conv text []); reflexivity.
Qed.

(** X12. The value that [output] has on entry plays no part in the
    conversion: when the function returns true the new output is the same
    whatever the old one was, and when it returns false the old one is
    still there.  (This is what makes it safe for [output] to be the
    string that [text] is a view of.) *)
Theorem old_output_is_not_read :
  forall (env : iconv_env) (fuel : nat) (text : list byte) (charset : string)
         (output : list byte),
    convert_to_utf8_ env fuel text charset output
    = match convert_to_utf8_ env fuel text charset [] with
      | Some (true, bytes) => Some (true, bytes)
      | Some (false, _) => Some (false, output)
      | None => None
      end.
Proof.
  intros env fuel text charset output.
  unfold convert_to_utf8_, convert_with.
  destruct (already_utf8 charset); [reflexivity|].
  destruct (utf_prefix (c_str charset)) as [[[] p]|].
  - destruct (length text <? 2)%nat; [reflexivity|].
    destruct (utf16_byte_order p text) as [[be i]|]; [|apply try_iconv_output].
    destruct (utf16_loop encode be _ staging_init); reflexivity.
  - destruct (legacy_label p); [| |apply try_iconv_output];
      destruct (table_loop encode _ _ text staging_init); reflexivity.
  - apply try_iconv_output.
Qed.

(** ** Byte-order detection and the labels that name the byte order *)

(** X13. Under a label that leaves the byte order open, a text that
    starts with a byte-order mark followed by at least two more bytes has
    the result of the rest of the text under a label that names that byte
    order; a text of two bytes or more that starts with neither mark has
    its own result under a big-endian label.  (A mark followed by less
    than two bytes is converted to the empty output, while the rest alone
    is not converted under a label that names the byte order.) *)
Theorem bom_detection_composes :
  forall (env : iconv_env) (fuel : nat) (c0 cbe cle : string) (output rest : list byte),
    dispatch c0 = Utf16 DetectFromBOMOrDefaultBE ->
    dispatch cbe = Utf16 BigEndian ->
    dispatch cle = Utf16 LittleEndian ->
    ((2 <= length rest)%nat ->
     convert_to_utf8_ env fuel (Byte.xfe :: Byte.xff :: rest) c0 output
     = convert_to_utf8_ env fuel rest cbe output
     /\ convert_to_utf8_ env fuel (Byte.xff :: Byte.xfe :: rest) c0 output
        = convert_to_utf8_ env fuel rest cle output)
    /\ (forall a b : byte,
          (a, b) <> (Byte.xfe, Byte.xff) -> (a, b) <> (Byte.xff, Byte.xfe) ->
          convert_to_utf8_ env fuel (a :: b :: rest) c0 output
          = convert_to_utf8_ env fuel (a :: b :: rest) cbe output)
    /\ ((length rest < 2)%nat ->
        convert_to_utf8_ env fuel (Byte.xfe :: Byte.xff :: rest) c0 output
        = Some (true, [])
        /\ convert_to_utf8_ env fuel rest cbe output = Some (false, output)).
Proof.
  intros env fuel c0 cbe cle output rest D0 Dbe Dle.
  split; [|split].
  - intros L. split.
    + rewrite (convert_utf16_at env fuel _ c0 output _ true 2 D0)
        by (first [cbn [length]; lia | reflexivity]).
      rewrite (convert_utf16_at env fuel rest cbe output _ true 0 Dbe L eq_refl).
      rewrite span_cons2_skip. reflexivity.
    + rewrite (convert_utf16_at env fuel _ c0 output _ false 2 D0)
        by (first [cbn [length]; lia | reflexivity]).
      rewrite (convert_utf16_at env fuel rest cle output _ false 0 Dle L eq_refl).
      rewrite span_cons2_skip. reflexivity.
  - intros a b N1 N2.
    rewrite (convert_utf16_at env fuel _ cbe output _ true 0 Dbe)
      by (first [cbn [length]; lia | reflexivity]).
    apply (convert_utf16_at env fuel _ c0 output _ true 0 D0); [cbn [length]; lia|].
    unfold byte_order_of. cbn [startswith]. rewrite !andb_true_r.
    destruct (Byte.eqb a Byte.xfe && Byte.eqb b Byte.xff) eqn:E1.
    { apply andb_true_iff in E1. destruct E1 as [Ea Eb].
      apply Byte.byte_dec_bl in Ea, Eb. subst. contradiction N1. reflexivity. }
    destruct (Byte.eqb a Byte.xff && Byte.eqb b Byte.xfe) eqn:E2.
    { apply andb_true_iff in E2. destruct E2 as [Ea Eb].
      apply Byte.byte_dec_bl in Ea, Eb. subst. contradiction N2. reflexivity. }
    reflexivity.
  - intros L. split.
    + rewrite (convert_utf16_at env fuel _ c0 output _ true 2 D0)
        by (first [cbn [length]; lia | reflexivity]).
      rewrite span_cons2_skip.
      destruct rest as [|x [|y r]]; [reflexivity | reflexivity | cbn in L; lia].
    + unfold convert_to_utf8_. apply convert_utf16_short; [|exact L].
      eapply dispatch_utf16_prefixed. exact Dbe.
Qed.

Lemma bom_detection_composes_witness :
  dispatch "utf-16" = Utf16 DetectFromBOMOrDefaultBE
  /\ dispatch "utf-16be" = Utf16 BigEndian
  /\ dispatch "utf-16le" = Utf16 LittleEndian
  /\ (2 <= length [Byte.x41; Byte.x00])%nat
  /\ convert_to_utf8_ no_iconv 0 [Byte.xff; Byte.xfe; Byte.x41; Byte.x00] "utf-16" []
     = convert_to_utf8_ no_iconv 0 [Byte.x41; Byte.x00] "utf-16le" [].
Proof.
  assert (D0 : dispatch "utf-16" = Utf16 DetectFromBOMOrDefaultBE) by reflexivity.
  assert (Dbe : dispatch "utf-16be" = Utf16 BigEndian) by reflexivity.
  assert (Dle : dispatch "utf-16le" = Utf16 LittleEndian) by reflexivity.
  assert (L : (2 <= length [Byte.x41; Byte.x00])%nat) by (simpl; lia).
  split; [exact D0|]. split; [exact Dbe|]. split; [exact Dle|]. split; [exact L|].
  exact (proj2 (proj1 (bom_detection_composes no_iconv 0%nat "utf-16" "utf-16be" "utf-16le"
                         [] [Byte.x41; Byte.x00] D0 Dbe Dle) L)).
Defined.

(** ** The labels of the built-in decoders *)

Lemma dispatch_route (charset : string) :
  dispatch charset = if already_utf8 charset then Passthrough else route (c_str charset).
Proof. reflexivity. Qed.

Lemma route_lower (s : string) : route (lower s) = route s.
Proof.
  unfold route. rewrite utf_prefix_lower.
  destruct (utf_prefix s) as [[[] p]|]; cbn [option_map fst snd].
  - rewrite utf16_suffix_lower. reflexivity.
  - rewrite legacy_label_lower. reflexivity.
  - reflexivity.
Qed.

Lemma lower_append (a b : string) : lower (a ++ b)%string = (lower a ++ lower b)%string.
Proof. induction a as [|c a IH]; [reflexivity|]. cbn. rewrite IH. reflexivity. Qed.

Lemma nul_free_append (a b : string) :
  nul_free (a ++ b)%string = nul_free a && nul_free b.
Proof.
  induction a as [|c a IH]; [reflexivity|].
  cbn. rewrite IH, andb_assoc. reflexivity.
Qed.

Lemma advance_append (x r : string) : advance (String.length x) (x ++ r)%string = r.
Proof. induction x as [|c x IH]; [destruct r; reflexivity|]. cbn. exact IH. Qed.

(** A comparison without regard to case that finds no difference over
    the length of a name: the string starts with the name up to case. *)
Lemma strncasecmp_prefix (lit : string) :
  nul_free lit = true ->
  forall p, strncasecmp p lit (String.length lit) = 0 ->
  exists x r, p = (x ++ r)%string /\ String.length x = String.length lit
              /\ lower x = lower lit.
Proof.
  unfold strncasecmp.
  induction lit as [|d lit IH]; intros N p E.
  - exists EmptyString, p. auto.
  - cbn [nul_free] in N. apply andb_true_iff in N. destruct N as [Nd N].
    cbn [String.length compare_n] in E.
    destruct p as [|c p].
    + assert (Z : code (tolower d) = 0) by lia.
      apply code_zero, tolower_zero in Z. subst d. discriminate Nd.
    + destruct (Z.eqb_spec (code (tolower c) - code (tolower d)) 0) as [Q | Q];
        [|contradiction].
      destruct (IH N p E) as (x & r & -> & L & Lx).
      exists (String c x), r. cbn. rewrite L, Lx.
      assert (T : tolower c = tolower d) by (apply code_inj; lia).
      rewrite T. auto.
Qed.

(** The same with regard to case. *)
Lemma strncmp_prefix (lit : string) :
  nul_free lit = true ->
  forall p, strncmp p lit (String.length lit) = 0 ->
  exists r, p = (lit ++ r)%string.
Proof.
  unfold strncmp.
  induction lit as [|d lit IH]; intros N p E.
  - exists p. reflexivity.
  - cbn [nul_free] in N. apply andb_true_iff in N. destruct N as [Nd N].
    cbn [String.length compare_n] in E.
    destruct p as [|c p].
    + assert (Z : code d = 0) by lia.
      apply code_zero in Z. subst d. discriminate Nd.
    + destruct (Z.eqb_spec (code c - code d) 0) as [Q | Q]; [|contradiction].
      destruct (IH N p E) as (r & ->).
      assert (T : c = d) by (apply code_inj; lia).
      subst c. exists r. reflexivity.
Qed.

Lemma compare_n_equal (n : nat) :
  forall a b : string,
    nul_free a = true -> nul_free b = true ->
    (String.length a < n)%nat -> (String.length b < n)%nat ->
    compare_n (fun c => c) n a b = 0 -> a = b.
Proof.
  induction n as [|n IH]; intros a b Na Nb La Lb E; [lia|].
  destruct a as [|c1 r1], b as [|c2 r2]; cbn [compare_n] in E.
  - reflexivity.
  - assert (Z : code c2 = 0) by lia.
    apply code_zero in Z. subst c2. discriminate Nb.
  - apply code_zero in E. subst c1. discriminate Na.
  - cbn [nul_free] in Na, Nb. apply andb_true_iff in Na, Nb.
    cbn [String.length] in La, Lb.
    destruct (Z.eqb_spec (code c1 - code c2) 0) as [Q | Q]; [|contradiction].
    assert (T : c1 = c2) by (apply code_inj; lia).
    subst c2. f_equal. apply IH; first [apply Na | apply Nb | lia | exact E].
Qed.

Lemma strcmp_equal (a b : string) :
  nul_free a = true -> nul_free b = true -> strcmp a b = 0 -> a = b.
Proof.
  intros Na Nb. unfold strcmp, compare_all.
  apply compare_n_equal; [exact Na | exact Nb | lia | lia].
Qed.

Lemma deref_is (p : string) (d : ascii) :
  Ascii.eqb (deref p) d = true -> d <> Ascii.zero -> exists r, p = String d r.
Proof.
  intros E N. apply Ascii.eqb_eq in E.
  destruct p as [|c r]; [cbn in E; congruence|].
  cbn in E. subst c. exists r. reflexivity.
Qed.

Lemma deref_zero (p : string) :
  nul_free p = true -> Ascii.eqb (deref p) Ascii.zero = true -> p = EmptyString.
Proof.
  intros N E. destruct p as [|c r]; [reflexivity|].
  cbn in E, N. rewrite E in N. discriminate N.
Qed.

Lemma skip_separator_inv (r : string) :
  exists sep, In sep separators /\ r = (sep ++ skip_separator r)%string.
Proof.
  unfold skip_separator.
  destruct (Ascii.eqb (deref r) "-") eqn:E1; cbn [orb].
  { destruct (deref_is r "-" E1 ltac:(discriminate)) as (q & ->).
    exists "-". split; [cbn; tauto | reflexivity]. }
  destruct (Ascii.eqb (deref r) "_") eqn:E2; cbn [orb].
  { destruct (deref_is r "_" E2 ltac:(discriminate)) as (q & ->).
    exists "_". split; [cbn; tauto | reflexivity]. }
  destruct (Ascii.eqb (deref r) " ") eqn:E3.
  { destruct (deref_is r " " E3 ltac:(discriminate)) as (q & ->).
    exists " ". split; [cbn; tauto | reflexivity]. }
  exists "". split; [cbn; tauto | reflexivity].
Qed.

Lemma separators_lower (sep : string) : In sep separators -> lower sep = sep.
Proof.
  cbn. intros [<- | [<- | [<- | [<- | []]]]]; reflexivity.
Qed.

Lemma separators_nul_free (sep : string) : In sep separators -> nul_free sep = true.
Proof.
  cbn. intros [<- | [<- | [<- | [<- | []]]]]; reflexivity.
Qed.

(** What is left of a label behind a UTF-16 or UCS-2 prefix. *)
Lemma utf_prefix_true (s p : string) :
  utf_prefix s = Some (true, p) ->
  exists x sep,
    In sep separators
    /\ ((lower x = "utf" /\ s = (x ++ sep ++ "16" ++ p)%string)
        \/ (lower x = "ucs" /\ s = (x ++ sep ++ "2" ++ p)%string)).
Proof.
  unfold utf_prefix. intros H.
  destruct (Z.eqb_spec (strncasecmp s "utf" 3) 0) as [E | _].
  - destruct (strncasecmp_prefix "utf" eq_refl s E) as (x & r & -> & Lx & Hx).
    change 3%nat with (String.length "utf") in H. rewrite <- Lx, advance_append in H.
    destruct (skip_separator_inv r) as (sep & Hsep & Hr).
    set (q := skip_separator r) in *.
    destruct (Ascii.eqb (deref q) "1") eqn:E1; [|discriminate H].
    destruct (deref_is q "1" E1 ltac:(discriminate)) as (q1 & Hq).
    rewrite Hq in H. cbn [advance negb orb] in H.
    destruct (Ascii.eqb (deref q1) "6") eqn:E2; [|discriminate H].
    destruct (deref_is q1 "6" E2 ltac:(discriminate)) as (q2 & Hq1).
    rewrite Hq1 in H. cbn [advance negb] in H. injection H as <-.
    exists x, sep. split; [exact Hsep|]. left. split; [exact Hx|].
    rewrite Hr, Hq, Hq1. reflexivity.
  - destruct (Z.eqb_spec (strncasecmp s "ucs" 3) 0) as [E | _]; [|discriminate H].
    destruct (strncasecmp_prefix "ucs" eq_refl s E) as (x & r & -> & Lx & Hx).
    change 3%nat with (String.length "ucs") in H. rewrite <- Lx, advance_append in H.
    destruct (skip_separator_inv r) as (sep & Hsep & Hr).
    set (q := skip_separator r) in *.
    destruct (Ascii.eqb (deref q) "2") eqn:E1; [|discriminate H].
    destruct (deref_is q "2" E1 ltac:(discriminate)) as (q1 & Hq).
    rewrite Hq in H. cbn [advance negb] in H. injection H as <-.
    exists x, sep. split; [exact Hsep|]. right. split; [exact Hx|].
    rewrite Hr, Hq. reflexivity.
Qed.

Lemma utf_prefix_false (s p : string) : utf_prefix s = Some (false, p) -> p = s.
Proof.
  unfold utf_prefix. intros H.
  destruct (strncasecmp s "utf" 3 =? 0).
  - destruct (negb _ || negb _); [discriminate H | injection H as H _; discriminate H].
  - destruct (strncasecmp s "ucs" 3 =? 0).
    + destruct (negb _); [discriminate H | injection H as H _; discriminate H].
    + injection H as <-. reflexivity.
Qed.

Lemma utf16_suffix_inv (p : string) (e : endianness) :
  nul_free p = true -> utf16_suffix p = Some e -> lower p = order_suffix e.
Proof.
  unfold utf16_suffix. intros N H.
  destruct (Ascii.eqb (deref p) Ascii.zero) eqn:E0.
  - injection H as <-. rewrite (deref_zero p N E0). reflexivity.
  - destruct (Z.eqb_spec (strcasecmp p "LE") 0) as [E1 | _].
    + injection H as <-. apply (strcasecmp_lower p "LE" N eq_refl) in E1. exact E1.
    + destruct (Z.eqb_spec (strcasecmp p "BE") 0) as [E2 | _]; [|discriminate H].
      injection H as <-. apply (strcasecmp_lower p "BE" N eq_refl) in E2. exact E2.
Qed.

Lemma route_utf16_names (s : string) (e : endianness) :
  nul_free s = true -> route s = Utf16 e -> In (lower s) (utf16_names e).
Proof.
  unfold route. intros N H.
  destruct (utf_prefix s) as [[[] p]|] eqn:U; [| |discriminate H].
  - destruct (utf16_suffix p) as [e'|] eqn:S; [|discriminate H].
    injection H as ->.
    destruct (utf_prefix_true s p U) as (x & sep & Hsep & [[Hx ->] | [Hx ->]]).
    + rewrite !nul_free_append in N. repeat (apply andb_true_iff in N; destruct N as [? N]).
      rewrite !lower_append, Hx, (separators_lower sep Hsep), (utf16_suffix_inv p e N S).
      cbn in Hsep. destruct Hsep as [<- | [<- | [<- | [<- | []]]]]; destruct e; pick_name.
    + rewrite !nul_free_append in N. repeat (apply andb_true_iff in N; destruct N as [? N]).
      rewrite !lower_append, Hx, (separators_lower sep Hsep), (utf16_suffix_inv p e N S).
      cbn in Hsep. destruct Hsep as [<- | [<- | [<- | [<- | []]]]]; destruct e; pick_name.
  - destruct (legacy_label p); discriminate H.
Qed.

(** The labels that lines 150-171 accept. *)
Lemma legacy_label_names (s : string) :
  nul_free s = true ->
  match legacy_label s with
  | to_cp1252 => In (lower s) (single_byte_names Cp1252OrLatin1)
  | to_iso8859_15 => In (lower s) (single_byte_names Iso8859_15)
  | to_try_iconv => True
  end.
Proof.
  intros N. unfold legacy_label.
  destruct (Z.eqb_spec (strncasecmp s "windows" 7) 0) as [E | _].
  { destruct (strncasecmp_prefix "windows" eq_refl s E) as (x & r & -> & Lx & Hx).
    change 7%nat with (String.length "windows"). rewrite <- Lx, advance_append.
    destruct (skip_separator_inv r) as (sep & Hsep & Hr).
    destruct (Z.eqb_spec (strcmp (skip_separator r) "1252") 0) as [Q | _]; cbn [negb];
      [|exact I].
    rewrite Hr in N. rewrite !nul_free_append in N.
    repeat (apply andb_true_iff in N; destruct N as [? N]).
    apply strcmp_equal in Q; [|exact N | reflexivity].
    rewrite Hr, Q, !lower_append, Hx, (separators_lower sep Hsep).
    cbn in Hsep. destruct Hsep as [<- | [<- | [<- | [<- | []]]]]; pick_name. }
  destruct (Z.eqb_spec (strncasecmp s "cp" 2) 0) as [E | _].
  { destruct (strncasecmp_prefix "cp" eq_refl s E) as (x & r & -> & Lx & Hx).
    change 2%nat with (String.length "cp"). rewrite <- Lx, advance_append.
    destruct (skip_separator_inv r) as (sep & Hsep & Hr).
    destruct (Z.eqb_spec (strcmp (skip_separator r) "1252") 0) as [Q | _]; cbn [negb];
      [|exact I].
    rewrite Hr in N. rewrite !nul_free_append in N.
    repeat (apply andb_true_iff in N; destruct N as [? N]).
    apply strcmp_equal in Q; [|exact N | reflexivity].
    rewrite Hr, Q, !lower_append, Hx, (separators_lower sep Hsep).
    cbn in Hsep. destruct Hsep as [<- | [<- | [<- | [<- | []]]]]; pick_name. }
  (* an optional "iso" and separator, then "8859" *)
  assert (P : exists pre p',
             In pre iso_prefixes /\ lower s = (pre ++ lower p')%string
             /\ nul_free p' = true
             /\ (if strncasecmp s "iso" 3 =? 0 then skip_separator (advance 3 s) else s) = p').
  { destruct (Z.eqb_spec (strncasecmp s "iso" 3) 0) as [E | _].
    - destruct (strncasecmp_prefix "iso" eq_refl s E) as (x & r & -> & Lx & Hx).
      change 3%nat with (String.length "iso"). rewrite <- Lx, advance_append.
      destruct (skip_separator_inv r) as (sep & Hsep & Hr).
      exists ("iso" ++ sep)%string, (skip_separator r).
      split; [right; apply in_map; exact Hsep|].
      split; [rewrite Hr at 1; rewrite !lower_append, Hx, (separators_lower sep Hsep);
              cbn; reflexivity|].
      split; [|reflexivity].
      rewrite Hr in N. rewrite !nul_free_append in N.
      repeat (apply andb_true_iff in N; destruct N as [? N]). exact N.
    - exists EmptyString, s. split; [left; reflexivity|]. auto. }
  destruct P as (pre & p' & Hpre & Hs & Np & ->).
  destruct (Z.eqb_spec (strncmp p' "8859" 4) 0) as [E | _]; cbn [negb]; [|exact I].
  destruct (strncmp_prefix "8859" eq_refl p' E) as (r & ->).
  change 4%nat with (String.length "8859"). rewrite advance_append.
  destruct (skip_separator_inv r) as (sep & Hsep & Hr).
  set (q := skip_separator r) in *.
  destruct (Ascii.eqb (deref q) "1") eqn:E1; cbn [negb]; [|exact I].
  destruct (deref_is q "1" E1 ltac:(discriminate)) as (q1 & Hq).
  rewrite Hq. cbn [advance].
  rewrite Hr, Hq in Np. rewrite !nul_free_append in Np. cbn [nul_free] in Np.
  repeat (apply andb_true_iff in Np; destruct Np as [? Np]).
  assert (Hl : lower s = (pre ++ "8859" ++ sep ++ "1" ++ lower q1)%string).
  { rewrite Hs, Hr, Hq, !lower_append. cbn [lower].
    rewrite (separators_lower sep Hsep). reflexivity. }
  destruct (Z.eqb_spec (strcmp q1 "5") 0) as [Q | _].
  - apply strcmp_equal in Q; [|exact Np | reflexivity]. subst q1.
    rewrite Hl.
    cbn in Hpre, Hsep.
    destruct Hpre as [<- | [<- | [<- | [<- | [<- | []]]]]];
      destruct Hsep as [<- | [<- | [<- | [<- | []]]]]; pick_name.
  - destruct (Ascii.eqb (deref q1) Ascii.zero) eqn:E0; cbn [negb]; [|exact I].
    rewrite (deref_zero q1 Np E0) in Hl. rewrite Hl.
    cbn in Hpre, Hsep.
    destruct Hpre as [<- | [<- | [<- | [<- | [<- | []]]]]];
      destruct Hsep as [<- | [<- | [<- | [<- | []]]]]; pick_name.
Qed.

Lemma route_single_byte_names (s : string) (t : table) :
  nul_free s = true -> route s = SingleByte t -> In (lower s) (single_byte_names t).
Proof.
  unfold route. intros N H.
  destruct (utf_prefix s) as [[[] p]|] eqn:U; [| |discriminate H].
  - destruct (utf16_suffix p); discriminate H.
  - apply utf_prefix_false in U. subst p.
    pose proof (legacy_label_names s N) as L.
    destruct (legacy_label s); try discriminate H; injection H as <-; exact L.
Qed.

(** The decoder of every name, and no name is one of lines 42-52. *)
Lemma names_route :
  (forall e, forallb (fun s => match route s with
                               | Utf16 e' => Bool.eqb (negb (already_utf8 s)) true
                                             && (String.eqb (order_suffix e) (order_suffix e'))
                               | _ => false
                               end) (utf16_names e) = true)
  /\ (forall t, forallb (fun s => match route s, t with
                                  | SingleByte Cp1252OrLatin1, Cp1252OrLatin1
                                  | SingleByte Iso8859_15, Iso8859_15 => negb (already_utf8 s)
                                  | _, _ => false
                                  end) (single_byte_names t) = true).
Proof.
  split; [intros []; vm_compute; reflexivity | intros []; vm_compute; reflexivity].
Qed.

Lemma c_str_not_already (charset name : string) :
  lower (c_str charset) = name -> already_utf8 name = false -> name <> EmptyString ->
  already_utf8 charset = false.
Proof.
  intros H A Ne.
  destruct (already_utf8 charset) eqn:E; [|reflexivity].
  apply already_utf8_lower in E.
  assert (X : lower charset = name -> already_utf8 name = true).
  { intros L. apply already_utf8_lower. rewrite <- L, lower_idem.
    destruct E as [E | [E | [E | E]]]; auto.
    subst charset. cbn in H. congruence. }
  assert (Y : forall lit, nul_free lit = true -> lower charset = lit -> lower charset = name).
  { intros lit Nl L.
    assert (Nc : nul_free charset = true) by (rewrite <- lower_nul_free, L; exact Nl).
    rewrite <- H, (c_str_id charset Nc). reflexivity. }
  destruct E as [E | [E | [E | E]]].
  - rewrite X in A; [discriminate A | exact (Y "utf-8" eq_refl E)].
  - rewrite X in A; [discriminate A | exact (Y "utf8" eq_refl E)].
  - rewrite X in A; [discriminate A | exact (Y "us-ascii" eq_refl E)].
  - subst charset. cbn in H. congruence.
Qed.

(** X14. The UTF-16 decoder is selected by exactly 24 names, read
    without regard to case and up to the first NUL of the label: "utf" or
    "ucs", an optional separator (hyphen, underscore or space), "16" after
    "utf" and "2" after "ucs", and then nothing (byte order detected),
    "le" or "be". *)
Theorem utf16_label_names :
  forall (charset : string) (e : endianness),
    dispatch charset = Utf16 e <-> In (lower (c_str charset)) (utf16_names e).
Proof.
  intros charset e. rewrite dispatch_route. split.
  - destruct (already_utf8 charset); [discriminate|].
    apply route_utf16_names. apply c_str_nul_free.
  - intros Hin.
    pose proof (proj1 names_route e) as F. rewrite forallb_forall in F.
    specialize (F _ Hin). rewrite route_lower in F.
    destruct (route (c_str charset)) as [|e'| |] eqn:R; try discriminate F.
    apply andb_true_iff in F. destruct F as [A F].
    destruct (already_utf8 (lower (c_str charset))) eqn:A'; [discriminate A|].
    rewrite (c_str_not_already charset _ eq_refl A').
    + f_equal. destruct e, e'; try reflexivity; discriminate F.
    + intros Z. rewrite Z in Hin. destruct e; cbn in Hin;
        repeat (destruct Hin as [Hin | Hin]; [discriminate Hin|]); exact Hin.
Qed.

Lemma utf16_label_names_witness :
  In (lower (c_str "UCS_2be")) (utf16_names BigEndian)
  /\ dispatch "UCS_2be" = Utf16 BigEndian.
Proof.
  assert (H : In (lower (c_str "UCS_2be")) (utf16_names BigEndian))
    by (vm_compute; tauto).
  split; [exact H|].
  exact (proj2 (utf16_label_names "UCS_2be" BigEndian) H).
Defined.

(** X15. The single-byte decoders are selected by exactly these names,
    read without regard to case and up to the first NUL of the label: the
    cp1252 table by "windows" or "cp", an optional separator and "1252",
    and by an optional "iso" with optional separator, "8859", an optional
    separator and "1"; the iso-8859-15 table by the latter form with "15"
    in place of "1". *)
Theorem single_byte_label_names :
  forall (charset : string) (t : table),
    dispatch charset = SingleByte t <-> In (lower (c_str charset)) (single_byte_names t).
Proof.
  intros charset t. rewrite dispatch_route. split.
  - destruct (already_utf8 charset); [discriminate|].
    apply route_single_byte_names. apply c_str_nul_free.
  - intros Hin.
    pose proof (proj2 names_route t) as F. rewrite forallb_forall in F.
    specialize (F _ Hin). rewrite route_lower in F.
    assert (A' : already_utf8 (lower (c_str charset)) = false
                 /\ route (c_str charset) = SingleByte t).
    { destruct (route (c_str charset)) as [| |[]|]; destruct t; try discriminate F;
        apply negb_true_iff in F; auto. }
    destruct A' as [A' R].
    rewrite (c_str_not_already charset _ eq_refl A'); [exact R|].
    intros Z. rewrite Z in Hin. destruct t; cbn in Hin;
      repeat (destruct Hin as [Hin | Hin]; [discriminate Hin|]); exact Hin.
Qed.

Lemma single_byte_label_names_witness :
  In (lower (c_str "ISO8859_15")) (single_byte_names Iso8859_15)
  /\ dispatch "ISO8859_15" = SingleByte Iso8859_15.
Proof.
  assert (H : In (lower (c_str "ISO8859_15")) (single_byte_names Iso8859_15))
    by (vm_compute; tauto).
  split; [exact H|].
  exact (proj2 (single_byte_label_names "ISO8859_15" Iso8859_15) H).
Defined.
